(** * Humidity and temperature alarm (src/main.c): a shallow embedding

    The firmware keeps all of its state in [int8_t] globals, written by the
    foreground loop of [main] and read by the timer-overflow interrupt
    handler.  The globals are modelled as a store indexed by variable name,
    the driver calls (LCD, LED matrix, speaker, sensor) as a log of output
    events, and the C functions as programs of a small resumption monad
    whose atomic actions are the points at which the interrupt may fire. *)

From Stdlib Require Import ZArith List Ascii String Bool Lia DecimalString.
Import ListNotations.
Open Scope Z_scope.

(** ** Machine integers *)

(** Conversion to [int8_t]: every store to a global wraps around. *)
Definition wrap8 (z : Z) : Z := (z + 128) mod 256 - 128.

Definition in_int8 (z : Z) : Prop := -128 <= z <= 127.

(** [sprintf(str, "%d", n)] *)
Definition sprintf_d (n : Z) : string := NilZero.string_of_int (Z.to_int n).

(** A binary literal [0b...], most significant bit first. *)
Fixpoint bin_acc (s : string) (acc : Z) : Z :=
  match s with
  | EmptyString => acc
  | String c s' => bin_acc s' (2 * acc + (if Ascii.eqb c "1"%char then 1 else 0))
  end.

Definition bin (s : string) : Z := bin_acc s 0.

(** ** User configuration *)

(** The four [#define]d limits; [NULL] stands for "no limit". *)
Record limits : Type := {
  temp_limit_min : Z;
  temp_limit_max : Z;
  hum_limit_min : Z;
  hum_limit_max : Z
}.

(** [NULL] compares equal to 0, so a limit of 0 is no limit either. *)
Definition NULL : Z := 0.

(** The limits the source ships with. *)
Definition user_configuration : limits :=
  {| temp_limit_min := 20; temp_limit_max := 30;
     hum_limit_min := 20; hum_limit_max := 50 |}.

(** ** Global variables *)

Inductive var : Type :=
| temp_exceeded_dir
| hum_exceeded_dir
| current_animation
| last_animation_done
| test_frequency
| display_step
| temperature_max
| temperature_min
| temperature_previous
| humidity_max
| humidity_min
| humidity_previous
| temperature
| humidity.

Definition var_eqb (x y : var) : bool :=
  match x, y with
  | temp_exceeded_dir, temp_exceeded_dir
  | hum_exceeded_dir, hum_exceeded_dir
  | current_animation, current_animation
  | last_animation_done, last_animation_done
  | test_frequency, test_frequency
  | display_step, display_step
  | temperature_max, temperature_max
  | temperature_min, temperature_min
  | temperature_previous, temperature_previous
  | humidity_max, humidity_max
  | humidity_min, humidity_min
  | humidity_previous, humidity_previous
  | temperature, temperature
  | humidity, humidity => true
  | _, _ => false
  end.

(** The initialisers of the globals. *)
Definition initial_value (x : var) : Z :=
  match x with
  | temp_exceeded_dir => 0
  | hum_exceeded_dir => 0
  | current_animation => 1
  | last_animation_done => 1
  | test_frequency => 0
  | display_step => 0
  | temperature_max => 0
  | temperature_min => 99
  | temperature_previous => 0
  | humidity_max => 0
  | humidity_min => 99
  | humidity_previous => 0
  | temperature => 0
  | humidity => 0
  end.

Definition LEDMATRIX_CHECK : list Z :=
  [ bin "00000000"; bin "00000011"; bin "00000111"; bin "00001110";
    bin "11011100"; bin "11111000"; bin "11110000"; bin "01100000" ].

Definition LEDMATRIX_WARNING : list Z :=
  [ bin "00000000"; bin "01100110"; bin "01100110"; bin "01100110";
    bin "01100110"; bin "00000000"; bin "01100110"; bin "00000000" ].

Definition LEDMATRIX_HEART : list Z :=
  [ bin "00000000"; bin "01100110"; bin "10011001"; bin "10000001";
    bin "10000001"; bin "01000010"; bin "00100100"; bin "00011000" ].

(** ** Output events *)

Inductive ioreg : Type := DDRD | TCCR1B | TIMSK1.

(** One event per call into a driver or write to an I/O register.  The tone
    of [warningSounds] and the frames of [matrixDisplay_animate] are each
    one event: their pin toggling, delays and per-row register traffic go
    through drivers that are not part of main.c. *)
Inductive event : Type :=
| lcd_init
| lcd_clrscr
| lcd_goto (pos : Z)
| lcd_puts (s : string)
| max7219_init
| max7219_shutdown (ic value : Z)
| max7219_test (ic value : Z)
| max7219_decode (ic value : Z)
| max7219_intensity (ic value : Z)
| max7219_scanlimit (ic value : Z)
| max7219_digit (ic digit value : Z)
| io_set_bits (r : ioreg)
| speaker_tone (timeMs : Z)
| matrix_animation (row_list : list Z) (repetitions : Z)
| dht_read.

(** ** Machine state *)

Record state : Type := {
  mem : var -> Z;          (* the globals *)
  interrupts : bool;       (* set by [sei()] *)
  out : list event         (* driver calls so far, oldest first *)
}.

Notation "s # x" := (mem s x) (at level 9, x at level 0, format "s # x").

Definition set (x : var) (v : Z) (s : state) : state :=
  {| mem := fun y => if var_eqb y x then wrap8 v else mem s y;
     interrupts := interrupts s;
     out := out s |}.

Definition log (e : event) (s : state) : state :=
  {| mem := mem s; interrupts := interrupts s; out := out s ++ [e] |}.

Definition enable_interrupts (s : state) : state :=
  {| mem := mem s; interrupts := true; out := out s |}.

Definition init_state : state :=
  {| mem := initial_value; interrupts := false; out := [] |}.

(** ** Programs *)

(** A program is a tree of atomic actions: a read of the globals, an update
    (one store or one driver call), an endless empty loop, or a use of an
    uninitialised buffer. *)
Inductive prog (A : Type) : Type :=
| Ret (a : A)
| Rd (k : state -> prog A)
| Upd (f : state -> state) (k : prog A)
| Spin
| Fault.

Arguments Ret {A} a.
Arguments Rd {A} k.
Arguments Upd {A} f k.
Arguments Spin {A}.
Arguments Fault {A}.

Fixpoint bind {A B : Type} (m : prog A) (f : A -> prog B) : prog B :=
  match m with
  | Ret a => f a
  | Rd k => Rd (fun s => bind (k s) f)
  | Upd g k => Upd g (bind k f)
  | Spin => Spin
  | Fault => Fault
  end.

Notation "x <- m ;; k" := (bind m (fun x => k))
  (at level 61, m at next level, right associativity).
Notation "m ;; k" := (bind m (fun _ => k))
  (at level 61, right associativity).

Definition skip : prog unit := Ret tt.

(** [x = v;] for a value that does not depend on the globals. *)
Definition assign (x : var) (v : Z) : prog unit := Upd (set x v) skip.

(** [x = e;] for an expression over the globals. *)
Definition assign_expr (x : var) (e : state -> Z) : prog unit :=
  Upd (fun s => set x (e s) s) skip.

Definition emit (e : event) : prog unit := Upd (log e) skip.

(** [if (c) { p } else { q }] with a condition over the globals. *)
Definition ifg {A : Type} (c : state -> bool) (p q : prog A) : prog A :=
  Rd (fun s => if c s then p else q).

Notation "x ::= v" := (assign x v) (at level 60, no associativity).
Notation "x ::=@ e" := (assign_expr x e) (at level 60, no associativity).

(** What an uninterrupted run of a program ends in. *)
Inductive outcome (A : Type) : Type :=
| Returns (a : A) (s : state)
| Spins (s : state)
| Undefined.

Arguments Returns {A} a s.
Arguments Spins {A} s.
Arguments Undefined {A}.

Fixpoint run {A : Type} (p : prog A) (s : state) : outcome A :=
  match p with
  | Ret a => Returns a s
  | Rd k => run (k s) s
  | Upd f k => run k (f s)
  | Spin => Spins s
  | Fault => Undefined
  end.

(** ** The sensor driver's answer *)

(** [dht_gettemperaturehumidity] lives in the DHT library, outside main.c.
    One call is an input of the model: the status it returns ([-1] on
    failure) and what, if anything, it stored through its two [int8_t]
    out-pointers. *)
Record dht_result : Type := {
  dht_status : Z;
  dht_stored : option (Z * Z)
}.

Definition dht_ok (t h : Z) : dht_result :=
  {| dht_status := 0; dht_stored := Some (t, h) |}.

Definition dht_error : dht_result :=
  {| dht_status := -1; dht_stored := None |}.

(** ** The functions of main.c *)

Section Firmware.

Variable cfg : limits.

Local Abbreviation TEMP_LIMIT_MIN := (temp_limit_min cfg).
Local Abbreviation TEMP_LIMIT_MAX := (temp_limit_max cfg).
Local Abbreviation HUM_LIMIT_MIN := (hum_limit_min cfg).
Local Abbreviation HUM_LIMIT_MAX := (hum_limit_max cfg).

Definition printTempHum_Current (temperature humidity : Z) : prog unit :=
  let str := sprintf_d temperature in
  emit (lcd_goto 0) ;;
  emit (lcd_puts "Temperature: ") ;;
  emit (lcd_puts str) ;;
  emit (lcd_puts "C  ") ;;
  let str := sprintf_d humidity in
  emit (lcd_goto 0x40) ;;
  emit (lcd_puts "Humidity:    ") ;;
  emit (lcd_puts str) ;;
  emit (lcd_puts "%  ").

Definition printTemp_History (temperature_max temperature_min : Z) : prog unit :=
  emit (lcd_goto 0) ;;
  emit (lcd_puts "Temp. history:   ") ;;
  let str_max := sprintf_d temperature_max in
  let str_min := sprintf_d temperature_min in
  emit (lcd_goto 0x40) ;;
  emit (lcd_puts "Min ") ;;
  emit (lcd_puts str_min) ;;
  emit (lcd_puts "C Max ") ;;
  emit (lcd_puts str_max) ;;
  emit (lcd_puts "C   ").

Definition printHum_History (humidity_max humidity_min : Z) : prog unit :=
  emit (lcd_goto 0) ;;
  emit (lcd_puts "Hum. history:    ") ;;
  let str_max := sprintf_d humidity_max in
  let str_min := sprintf_d humidity_min in
  emit (lcd_goto 0x40) ;;
  emit (lcd_puts "Min ") ;;
  emit (lcd_puts str_min) ;;
  emit (lcd_puts "% Max ") ;;
  emit (lcd_puts str_max) ;;
  emit (lcd_puts "%   ").

Definition warningSounds (timeMs : Z) : prog unit :=
  emit (speaker_tone timeMs).

Definition matrixDisplay_animate (row_list : list Z) (repetitions : Z) : prog unit :=
  emit (matrix_animation row_list repetitions).

(** [lcd_puts(str)] on the local buffer [char str[12]]: [None] is the buffer
    no [sprintf] has written yet. *)
Definition lcd_puts_buffer (str : option string) : prog unit :=
  match str with
  | Some text => emit (lcd_puts text)
  | None => Fault
  end.

Definition printWarning (tempOrHum exceeded_dir : Z) : prog unit :=
  emit (lcd_goto 0) ;;
  (if tempOrHum =? 0 then
     str <- (if exceeded_dir =? 1 then
               emit (lcd_puts "HIGH TEMPERATURE") ;;
               emit (lcd_goto 0x40) ;;
               emit (lcd_puts "Over ") ;;
               Ret (Some (sprintf_d TEMP_LIMIT_MAX))
             else if exceeded_dir =? -1 then
               emit (lcd_puts "LOW TEMPERATURE ") ;;
               emit (lcd_goto 0x40) ;;
               emit (lcd_puts "Under ") ;;
               Ret (Some (sprintf_d TEMP_LIMIT_MIN))
             else Ret None) ;;
     lcd_puts_buffer str ;;
     emit (lcd_puts "C limit! ")
   else if tempOrHum =? 1 then
     str <- (if exceeded_dir =? 1 then
               emit (lcd_puts "HIGH HUMIDITY   ") ;;
               emit (lcd_goto 0x40) ;;
               emit (lcd_puts "Over ") ;;
               Ret (Some (sprintf_d HUM_LIMIT_MAX))
             else if exceeded_dir =? -1 then
               emit (lcd_puts "LOW HUMIDITY    ") ;;
               emit (lcd_goto 0x40) ;;
               emit (lcd_puts "Under ") ;;
               Ret (Some (sprintf_d HUM_LIMIT_MIN))
             else Ret None) ;;
     lcd_puts_buffer str ;;
     emit (lcd_puts "% limit! ")
   else skip) ;;
  warningSounds 2000.

Definition isNewResultValid : prog Z :=
  ifg (fun s => s#test_frequency <? 1)
    (temperature_previous ::=@ (fun s => s#temperature) ;;
     humidity_previous ::=@ (fun s => s#humidity) ;;
     test_frequency ::=@ (fun s => s#test_frequency + 1) ;;
     Ret 1)
    (ifg (fun s => (s#temperature - s#temperature_previous <? -5)
                   || (s#temperature - s#temperature_previous >? 5))
       (Ret 0)
       (ifg (fun s => (s#humidity - s#humidity_previous <? -5)
                      || (s#humidity - s#humidity_previous >? 5))
          (Ret 0)
          (temperature_previous ::=@ (fun s => s#temperature) ;;
           humidity_previous ::=@ (fun s => s#humidity) ;;
           Ret 1))).

(** The first block of [checkStats], headed [CHECK CURRENT VALUES EXCEED
    LIMITS] in the source. *)
Definition check_limits (temperature humidity : Z) : prog unit :=
  (if negb (TEMP_LIMIT_MAX =? NULL) && (TEMP_LIMIT_MAX <? temperature) then
     temp_exceeded_dir ::= 1 ;;
     current_animation ::= 1
   else if negb (TEMP_LIMIT_MIN =? NULL) && (temperature <? TEMP_LIMIT_MIN) then
     temp_exceeded_dir ::= -1 ;;
     current_animation ::= 1
   else
     temp_exceeded_dir ::= 0) ;;
  (if negb (HUM_LIMIT_MAX =? NULL) && (HUM_LIMIT_MAX <? humidity) then
     hum_exceeded_dir ::= 1 ;;
     current_animation ::= 1
   else if negb (HUM_LIMIT_MIN =? NULL) && (humidity <? HUM_LIMIT_MIN) then
     hum_exceeded_dir ::= -1 ;;
     current_animation ::= 1
   else
     hum_exceeded_dir ::= 0) ;;
  ifg (fun s => (s#hum_exceeded_dir =? 0) && (s#temp_exceeded_dir =? 0))
    (current_animation ::= 0) skip.

(** The second block, headed [ADJUST STORED EXTREMES]. *)
Definition adjust_extremes (temperature humidity : Z) : prog unit :=
  ifg (fun s => s#temperature_max <? temperature)
    (temperature_max ::= temperature) skip ;;
  ifg (fun s => s#temperature_min >? temperature)
    (temperature_min ::= temperature) skip ;;
  ifg (fun s => s#humidity_max <? humidity)
    (humidity_max ::= humidity) skip ;;
  ifg (fun s => s#humidity_min >? humidity)
    (humidity_min ::= humidity) skip.

(** The parameters of [checkStats] hide the globals of the same name;
    [isNewResultValid] reads the globals. *)
Definition checkStats (temperature humidity : Z) : prog unit :=
  valid <- isNewResultValid ;;
  if valid =? 1 then
    check_limits temperature humidity ;;
    adjust_extremes temperature humidity
  else skip.

(** *** The timer-overflow handler *)

(** The print function the handler calls, with its arguments. *)
Inductive call : Type :=
| call_printWarning (tempOrHum exceeded_dir : Z)
| call_printTempHum_Current (temperature humidity : Z)
| call_printTemp_History (temperature_max temperature_min : Z)
| call_printHum_History (humidity_max humidity_min : Z).

Definition invoke (c : call) : prog unit :=
  match c with
  | call_printWarning a d => printWarning a d
  | call_printTempHum_Current t h => printTempHum_Current t h
  | call_printTemp_History mx mn => printTemp_History mx mn
  | call_printHum_History mx mn => printHum_History mx mn
  end.

(** The [if / else if] chain at the head of the handler. *)
Definition isr_pane (s : state) : option call :=
  if (s#display_step =? 0)
     && ((s#temp_exceeded_dir =? 1) || (s#temp_exceeded_dir =? -1)) then
    Some (call_printWarning 0 s#temp_exceeded_dir)
  else if (s#display_step =? 1)
          && ((s#hum_exceeded_dir =? 1) || (s#hum_exceeded_dir =? -1)) then
    Some (call_printWarning 1 s#hum_exceeded_dir)
  else if s#display_step <=? 2 then
    Some (call_printTempHum_Current s#temperature s#humidity)
  else if s#display_step =? 3 then
    Some (call_printTemp_History s#temperature_max s#temperature_min)
  else if s#display_step =? 4 then
    Some (call_printHum_History s#humidity s#humidity_min)
  else None.

(** The handler in its three stretches: the pane, the step counter, the
    matrix animation. *)
Definition render_pane : prog unit :=
  Rd (fun s => match isr_pane s with
               | Some c => invoke c
               | None => skip
               end).

Definition advance_display_step : prog unit :=
  display_step ::=@ (fun s => s#display_step + 1) ;;
  ifg (fun s => s#display_step >? 4) (display_step ::= 0) skip.

Definition advance_animation : prog unit :=
  ifg (fun s => s#last_animation_done =? 1)
    (last_animation_done ::= 0 ;;
     ifg (fun s => s#current_animation =? 0)
       (matrixDisplay_animate LEDMATRIX_CHECK 1)
       (ifg (fun s => s#current_animation =? 1)
          (matrixDisplay_animate LEDMATRIX_WARNING 1)
          (matrixDisplay_animate LEDMATRIX_HEART 1)) ;;
     last_animation_done ::= 1)
    skip.

Definition TIMER1_OVF_vect : prog unit :=
  render_pane ;;
  advance_display_step ;;
  advance_animation.

(** *** [main] *)

Fixpoint for_each (l : list Z) (body : Z -> prog unit) : prog unit :=
  match l with
  | [] => skip
  | i :: l' => body i ;; for_each l' body
  end.

(** One call of the sensor driver: it may store a sample in the globals
    [temperature] and [humidity], and returns its status. *)
Definition dht_answer (r : dht_result) (s : state) : state :=
  log dht_read
    match dht_stored r with
    | Some (t, h) => set humidity h (set temperature t s)
    | None => s
    end.

Definition dht_gettemperaturehumidity (r : dht_result) : prog Z :=
  Upd (dht_answer r) (Ret (dht_status r)).

(** [main] up to the point where it enters [while(1)]: it ends in [Spin]
    on a configuration error and returns to start the polling loop.  The
    test [MIN > MAX] is the comparison of two integers, which is what the
    code does when both limits are integer literals.  With a limit left at
    [NULL], the null pointer, the compiler compares the two operands as
    addresses, that is unsigned; the answer is the same unless the other
    limit is negative.  The theorems on the outcome of the test take their
    limits where the two comparisons agree. *)
Definition main_setup : prog unit :=
  emit lcd_init ;;
  emit lcd_clrscr ;;
  emit (lcd_goto 0) ;;
  emit max7219_init ;;
  emit (max7219_shutdown 0 1) ;;
  emit (max7219_test 0 0) ;;
  emit (max7219_decode 0 0) ;;
  emit (max7219_intensity 0 15) ;;
  emit (max7219_scanlimit 0 7) ;;
  for_each [0; 1; 2; 3; 4; 5; 6; 7] (fun column => emit (max7219_digit 0 column 0)) ;;
  emit (io_set_bits DDRD) ;;
  emit (io_set_bits TCCR1B) ;;
  emit (io_set_bits TIMSK1) ;;
  Upd enable_interrupts skip ;;
  if (TEMP_LIMIT_MIN >? TEMP_LIMIT_MAX) || (HUM_LIMIT_MIN >? HUM_LIMIT_MAX) then
    emit (lcd_puts "Config error:") ;;
    emit (lcd_goto 0x40) ;;
    emit (lcd_puts "Limit MIN > MAX") ;;
    current_animation ::= 1 ;;
    Spin
  else skip.

(** The body of the polling loop, for one answer of the sensor. *)
Definition main_loop_body (r : dht_result) : prog unit :=
  status <- dht_gettemperaturehumidity r ;;
  if negb (status =? -1) then
    Rd (fun s => checkStats s#temperature s#humidity)
  else
    emit (lcd_puts "Input Error:") ;;
    emit (lcd_goto 0x40) ;;
    emit (lcd_puts "Bad sensor data.") ;;
    current_animation ::= 1.

(** *** The machine: foreground and interrupt interleaved *)

(** The globals with what is left of the foreground's current stretch of
    code ([main_setup], or one pass through the loop body). *)
Definition config : Type := state * prog unit.

Inductive action : Type :=
| fg                      (* the foreground performs its next atomic action *)
| poll (r : dht_result)   (* the loop starts a pass; the sensor answers [r] *)
| irq.                    (* timer 1 overflows *)

(** [None] is undefined behaviour.  An action that does not apply leaves
    the configuration as it is. *)
Definition step (a : action) (c : config) : option config :=
  let (s, k) := c in
  match a with
  | fg =>
      match k with
      | Ret _ => Some c
      | Rd k' => Some (s, k' s)
      | Upd f k' => Some (f s, k')
      | Spin => Some c
      | Fault => None
      end
  | poll r =>
      match k with
      | Ret _ => Some (s, main_loop_body r)
      | _ => Some c
      end
  | irq =>
      if interrupts s then
        match run TIMER1_OVF_vect s with
        | Returns _ s' => Some (s', k)
        | Spins _ => Some (s, Spin)
        | Undefined => None
        end
      else Some c
  end.

Fixpoint exec (sched : list action) (c : config) : option config :=
  match sched with
  | [] => Some c
  | a :: sched' =>
      match step a c with
      | Some c' => exec sched' c'
      | None => None
      end
  end.

Definition boot : config := (init_state, main_setup).

End Firmware.

Arguments wrap8 : simpl never.
Arguments sprintf_d : simpl never.

(** ** Vocabulary of the specification *)

(** *** Directions and animations *)

Inductive Direction : Type := Under | Nominal | Over.

(** How [temp_exceeded_dir] and [hum_exceeded_dir] encode a direction. *)
Definition direction_code (d : Direction) : Z :=
  match d with
  | Under => -1
  | Nominal => 0
  | Over => 1
  end.

(** A limit left at [NULL] is no bound. *)
Definition bound (limit : Z) : option Z :=
  if limit =? NULL then None else Some limit.

(** The classification as the specification words it: Over if an upper
    bound is configured and the value strictly exceeds it, else Under if a
    lower bound is configured and the value is strictly below it, else
    Nominal. *)
Definition classify (lower upper : option Z) (value : Z) : Direction :=
  match upper with
  | Some u =>
      if u <? value then Over
      else match lower with
           | Some l => if value <? l then Under else Nominal
           | None => Nominal
           end
  | None =>
      match lower with
      | Some l => if value <? l then Under else Nominal
      | None => Nominal
      end
  end.

(** The values of [current_animation] the handler tells apart. *)
Definition anim_check : Z := 0.
Definition anim_warning : Z := 1.

(** *** Results of uninterrupted runs *)

(** The Validator accepts the sample that is in the globals. *)
Definition validates (s : state) : bool :=
  match run isNewResultValid s with
  | Returns v _ => v =? 1
  | Spins _ | Undefined => false
  end.

(** A sample: temperature, humidity. *)
Definition sample : Type := (Z * Z)%type.

Definition sample_in_int8 (b : sample) : Prop :=
  in_int8 (fst b) /\ in_int8 (snd b).

(** The sensor driver has stored sample [b]. *)
Definition present (b : sample) (s : state) : state :=
  set humidity (snd b) (set temperature (fst b) s).

(** The Validator called on each sample in turn; with every sample, what it
    returned. *)
Fixpoint validator_log (bs : list sample) (s : state) : list (sample * Z) * state :=
  match bs with
  | [] => ([], s)
  | b :: bs' =>
      match run isNewResultValid (present b s) with
      | Returns v s' =>
          let (l, s'') := validator_log bs' s' in ((b, v) :: l, s'')
      | Spins _ | Undefined => ([], s)
      end
  end.

(** The most recent sample the Validator returned 1 for. *)
Definition last_accepted_from (acc : option sample) (l : list (sample * Z)) : option sample :=
  fold_left (fun acc p => if snd p =? 1 then Some (fst p) else acc) l acc.

Definition last_accepted (l : list (sample * Z)) : option sample :=
  last_accepted_from None l.

(** What the Validator's memory holds when [acc] is the last sample it
    accepted ([None]: it was never called). *)
Definition remembers (acc : option sample) (s : state) : Prop :=
  match acc with
  | None => s#test_frequency = 0
  | Some a =>
      s#test_frequency = 1 /\
      s#temperature_previous = fst a /\ s#humidity_previous = snd a
  end.

(** State [s] with the events [l] appended to its log. *)
Definition logs (l : list event) (s : state) : state :=
  {| mem := mem s; interrupts := interrupts s; out := out s ++ l |}.

(** The events a print function sends to the drivers. *)
Definition pane (p : prog unit) : list event :=
  match run p init_state with
  | Returns _ s => out s
  | Spins _ | Undefined => []
  end.

(** Passes through the polling loop with no interrupt in between. *)
Fixpoint passes (cfg : limits) (rs : list dht_result) (s : state) : option state :=
  match rs with
  | [] => Some s
  | r :: rs' =>
      match run (main_loop_body cfg r) s with
      | Returns _ s' => passes cfg rs' s'
      | Spins _ | Undefined => None
      end
  end.

(** What one tick sends to the display and the speaker in state [s], and
    what it sends to the LED matrix. *)
Definition tick_pane (cfg : limits) (s : state) : list event :=
  match isr_pane s with
  | Some c => pane (invoke cfg c)
  | None => []
  end.

Definition tick_animation (s : state) : list event :=
  if s#last_animation_done =? 1 then
    [matrix_animation
       (if s#current_animation =? 0 then LEDMATRIX_CHECK
        else if s#current_animation =? 1 then LEDMATRIX_WARNING
        else LEDMATRIX_HEART) 1]
  else [].

(** *** The machine *)

Definition config_error (cfg : limits) : Prop :=
  temp_limit_min cfg > temp_limit_max cfg \/ hum_limit_min cfg > hum_limit_max cfg.

(** A minimum above its maximum with both limits configured, that is
    neither left at [NULL]. *)
Definition configured_above (lo hi : Z) : Prop :=
  lo <> NULL /\ hi <> NULL /\ lo > hi.

Definition configured_error (cfg : limits) : Prop :=
  configured_above (temp_limit_min cfg) (temp_limit_max cfg) \/
  configured_above (hum_limit_min cfg) (hum_limit_max cfg).

(** A pair of limits the start-up test lets pass, whether it compares
    integers or addresses: both configured and in order, or no minimum and
    a maximum that is not negative. *)
Definition in_order (lo hi : Z) : Prop :=
  (lo <> NULL /\ hi <> NULL /\ lo <= hi) \/ (lo = NULL /\ 0 <= hi).

Definition ordered_limits (cfg : limits) : Prop :=
  in_order (temp_limit_min cfg) (temp_limit_max cfg) /\
  in_order (hum_limit_min cfg) (hum_limit_max cfg).

Definition count_fg (sched : list action) : nat :=
  List.length (filter (fun a => match a with fg => true | _ => false end) sched).

(** The variables the foreground owns: all but the two the handler writes. *)
Definition foreground_var (x : var) : bool :=
  match x with
  | display_step | last_animation_done => false
  | _ => true
  end.

(** The text [main] puts on the display for a configuration error, and the
    one for a failed sensor read. *)
Definition config_error_pane : list event :=
  [lcd_puts "Config error:"; lcd_goto 0x40; lcd_puts "Limit MIN > MAX"].

Definition input_error_pane : list event :=
  [lcd_puts "Input Error:"; lcd_goto 0x40; lcd_puts "Bad sensor data."].

(** [l] occurs in [l'] in order, other events possibly in between. *)
Fixpoint subseq (l l' : list event) : Prop :=
  match l, l' with
  | [], _ => True
  | _ :: _, [] => False
  | e :: r, e' :: r' => (e = e' /\ subseq r r') \/ subseq l r'
  end.

(** For a program without reads: the number of updates before it spins. *)
Fixpoint steps_to_spin (k : prog unit) : option nat :=
  match k with
  | Spin => Some 0%nat
  | Upd _ k' => option_map S (steps_to_spin k')
  | Ret _ | Rd _ | Fault => None
  end.

(** An update that leaves the log as it is or appends to it. *)
Definition grows (f : state -> state) : Prop :=
  forall s, exists l, out (f s) = out s ++ l.

(** Events the foreground has yet to log before it spins, in order. *)
Inductive will_log : list event -> prog unit -> Prop :=
| will_log_nil : will_log [] Spin
| will_log_now e l k : will_log l k -> will_log (e :: l) (Upd (log e) k)
| will_log_later l f k : grows f -> will_log l k -> will_log l (Upd f k).

(** The foreground has changed none of its variables and the sensor was
    never read. *)
Definition untouched (s : state) : Prop :=
  (forall x, foreground_var x = true -> s#x = initial_value x) /\
  ~ In dht_read (out s).

(** *** Invariants of programs under interruption *)

(** Every update of the program keeps [P], whatever state satisfying [P]
    it is applied to, and the program never uses an uninitialised buffer. *)
Inductive keeps (P : state -> Prop) {A : Type} : prog A -> Prop :=
| keeps_ret a : keeps P (Ret a)
| keeps_rd k : (forall s, P s -> keeps P (k s)) -> keeps P (Rd k)
| keeps_upd f k : (forall s, P s -> P (f s)) -> keeps P k -> keeps P (Upd f k)
| keeps_spin : keeps P Spin.

(** The directions and the animation selector hold only the values the
    code assigns, and the heart was never animated. *)
Definition dir_ok (z : Z) : Prop := z = -1 \/ z = 0 \/ z = 1.

Definition heart_free (l : list event) : Prop :=
  forall repetitions, ~ In (matrix_animation LEDMATRIX_HEART repetitions) l.

Definition selectors_ok (s : state) : Prop :=
  dir_ok s#temp_exceeded_dir /\
  dir_ok s#hum_exceeded_dir /\
  (s#current_animation = anim_check \/ s#current_animation = anim_warning) /\
  heart_free (out s).

(** The events that go to the display or the speaker. *)
Definition pane_event (e : event) : Prop :=
  match e with
  | lcd_goto _ | lcd_puts _ | speaker_tone _ => True
  | _ => False
  end.

(** ** Concrete inputs *)

(** The limits of the specification's fatal-path example. *)
Definition inverted_limits : limits :=
  {| temp_limit_min := 30; temp_limit_max := 20;
     hum_limit_min := 20; hum_limit_max := 50 |}.

(** Limits with the lower temperature limit configured as 0 degrees. *)
Definition zero_lower_limit : limits :=
  {| temp_limit_min := 0; temp_limit_max := 30;
     hum_limit_min := 20; hum_limit_max := 50 |}.

(** The state after a first pass through the loop with sample (25, 40). *)
Definition after_first_sample : state :=
  match passes user_configuration [dht_ok 25 40] init_state with
  | Some s => s
  | None => init_state
  end.

(** Start-up, three accepted samples with humidity 40, 45 and 42, then four
    ticks: the next tick is the one of step 4. *)
Definition three_samples_four_ticks : list action :=
  repeat fg 21
  ++ poll (dht_ok 25 40) :: repeat fg 20
  ++ poll (dht_ok 25 45) :: repeat fg 20
  ++ poll (dht_ok 25 42) :: repeat fg 20
  ++ [irq; irq; irq; irq].

(** ** Passes and ticks in turn *)

(** One pass through the polling loop, or one run of the handler, each to
    its end. *)
Inductive round : Type :=
| pass (r : dht_result)
| tick.

Fixpoint rounds (cfg : limits) (l : list round) (s : state) : option state :=
  match l with
  | [] => Some s
  | pass r :: l' =>
      match run (main_loop_body cfg r) s with
      | Returns _ s' => rounds cfg l' s'
      | Spins _ | Undefined => None
      end
  | tick :: l' =>
      match run (TIMER1_OVF_vect cfg) s with
      | Returns _ s' => rounds cfg l' s'
      | Spins _ | Undefined => None
      end
  end.

(** A pass whose sensor read succeeded. *)
Definition successful (rd : round) : bool :=
  match rd with
  | pass r => negb (dht_status r =? -1)
  | tick => false
  end.

(** The extremes lie on either side of the last accepted sample. *)
Definition brackets (s : state) : Prop :=
  s#temperature_min <= s#temperature_previous <= s#temperature_max /\
  s#humidity_min <= s#humidity_previous <= s#humidity_max.

(** The directions are those of the last accepted sample. *)
Definition directions_current (cfg : limits) (s : state) : Prop :=
  s#temp_exceeded_dir =
    direction_code (classify (bound (temp_limit_min cfg)) (bound (temp_limit_max cfg))
                      s#temperature_previous) /\
  s#hum_exceeded_dir =
    direction_code (classify (bound (hum_limit_min cfg)) (bound (hum_limit_max cfg))
                      s#humidity_previous).

(** What holds between passes. *)
Definition settled (cfg : limits) (s : state) : Prop :=
  in_int8 s#temperature /\ in_int8 s#humidity /\
  (s#test_frequency = 0 \/ s#test_frequency = 1) /\
  (s#test_frequency = 0 -> s#temp_exceeded_dir = 0 /\ s#hum_exceeded_dir = 0) /\
  (s#test_frequency = 1 -> brackets s /\ directions_current cfg s) /\
  (s#current_animation = anim_check ->
   s#temp_exceeded_dir = 0 /\ s#hum_exceeded_dir = 0).

(** The step counter is in its cycle and no animation is in flight. *)
Definition scheduler_ok (s : state) : Prop :=
  0 <= s#display_step <= 4 /\ s#last_animation_done = 1.

(** A successful read that stored a sample further than 5 from the
    Validator's baseline in temperature or in humidity. *)
Definition far_from_baseline (s : state) (r : dht_result) : Prop :=
  dht_status r <> -1 /\
  exists t h,
    dht_stored r = Some (t, h) /\ in_int8 t /\ in_int8 h /\
    (5 < Z.abs (t - s#temperature_previous) \/ 5 < Z.abs (h - s#humidity_previous)).

(** Samples each within 5 of the one before, in temperature and in
    humidity, starting from [a]. *)
Fixpoint chain (a : sample) (bs : list sample) : Prop :=
  match bs with
  | [] => True
  | b :: bs' =>
      Z.abs (fst b - fst a) <= 5 /\ Z.abs (snd b - snd a) <= 5 /\ chain b bs'
  end.

(** The successful read that stores sample [b]. *)
Definition dht_sample (b : sample) : dht_result := dht_ok (fst b) (snd b).

(** A program that never reaches the endless empty loop nor an
    uninitialised buffer. *)
Inductive no_spin : prog unit -> Prop :=
| no_spin_ret u : no_spin (Ret u)
| no_spin_rd k : (forall s, no_spin (k s)) -> no_spin (Rd k)
| no_spin_upd f k : no_spin k -> no_spin (Upd f k).

(** ** Start-up *)

(** What [main] sends to the drivers and I/O registers before [sei()]. *)
Definition setup_log : list event :=
  [lcd_init; lcd_clrscr; lcd_goto 0;
   max7219_init; max7219_shutdown 0 1; max7219_test 0 0; max7219_decode 0 0;
   max7219_intensity 0 15; max7219_scanlimit 0 7;
   max7219_digit 0 0 0; max7219_digit 0 1 0; max7219_digit 0 2 0;
   max7219_digit 0 3 0; max7219_digit 0 4 0; max7219_digit 0 5 0;
   max7219_digit 0 6 0; max7219_digit 0 7 0;
   io_set_bits DDRD; io_set_bits TCCR1B; io_set_bits TIMSK1].

(** A program after its first [n] updates. *)
Fixpoint drop_updates (n : nat) (k : prog unit) : prog unit :=
  match n, k with
  | S n', Upd _ k' => drop_updates n' k'
  | _, _ => k
  end.

(** Interrupts are enabled and the log begins with the whole of
    [setup_log]. *)
Definition started (s : state) : Prop :=
  interrupts s = true /\ exists rest, out s = setup_log ++ rest.

(** ** Loops over an index *)

(** [for (i = ...; ...; ...) body] over the values the index takes. *)
Definition for_loop {S : Type} (indices : list Z) (body : Z -> S -> S) (s : S) : S :=
  fold_left (fun s i => body i s) indices s.

(** The indices [0, 1, ..., n - 1]. *)
Definition count_up (n : Z) : list Z := map Z.of_nat (seq 0 (Z.to_nat n)).

(** The [n] integers from [start] on. *)
Fixpoint z_range (start : Z) (n : nat) : list Z :=
  match n with
  | O => []
  | S n' => start :: z_range (start + 1) n'
  end.

(** The values of a 16-bit [int], the type of the numbers the print
    functions take. *)
Definition int16_values : list Z := z_range (-32768) (Z.to_nat 65536).

(** ** The LED matrix, frame by frame *)

Module Frame.

(** Modelled from the spec: the MAX7219 driver (max7219/max7219.h) is not
    part of main.c.  The specification gives it [set_row(device, row,
    byte)] and [get_row(device, row) -> byte] over single-byte rows, eight
    to a device; [max7219_digit] and [max7219_getdigit] are these, and
    [_delay_ms] records what device 0 shows while the program waits. *)
Record matrix : Type := {
  digit_of : Z -> Z -> Z;     (* device, row: the byte last written *)
  elapsed_ms : Z;             (* time spent in [_delay_ms] *)
  shown : list (list Z)       (* rows 0..7 of device 0 at each delay, oldest first *)
}.

Definition max7219_digit (ic digit value : Z) (m : matrix) : matrix :=
  {| digit_of := fun i d =>
       if (i =? ic) && (d =? digit) then value mod 256 else digit_of m i d;
     elapsed_ms := elapsed_ms m;
     shown := shown m |}.

Definition max7219_getdigit (ic digit : Z) (m : matrix) : Z :=
  digit_of m ic digit.

Definition rows_of (m : matrix) : list Z :=
  map (digit_of m 0) [0; 1; 2; 3; 4; 5; 6; 7].

Definition _delay_ms (ms : Z) (m : matrix) : matrix :=
  {| digit_of := digit_of m;
     elapsed_ms := elapsed_ms m + ms;
     shown := shown m ++ [rows_of m] |}.

(** [row_list[row]] *)
Definition at_row (row_list : list Z) (row : Z) : Z :=
  nth (Z.to_nat row) row_list 0.

(** [matrixDisplay_animate] with the driver calls it makes: the bitmap is
    shifted in, then shifted back out, a frame every 120 ms.  The parameter
    [repetitions] is a [uint8_t]: the function receives the argument
    modulo 256. *)
Definition matrixDisplay_animate (row_list : list Z) (repetitions : Z)
    (m : matrix) : matrix :=
  for_loop (count_up (repetitions mod 256)) (fun repitition m =>
    let m :=
      for_loop [7; 6; 5; 4; 3; 2; 1; 0] (fun column m =>
        let m :=
          for_loop [0; 1; 2; 3; 4; 5; 6; 7] (fun row m =>
            max7219_digit 0 row (Z.shiftr (at_row row_list row) column) m) m in
        _delay_ms 120 m) m in
    for_loop [0; 1; 2; 3; 4; 5; 6; 7] (fun column m =>
      let m :=
        for_loop [0; 1; 2; 3; 4; 5; 6; 7] (fun row m =>
          let previous_value := (max7219_getdigit 0 row m) mod 256 in
          max7219_digit 0 row (Z.shiftl previous_value 1) m) m in
      _delay_ms 120 m) m) m.

(** A bitmap: eight bytes. *)
Definition bitmap (row_list : list Z) : Prop :=
  List.length row_list = 8%nat /\ Forall (fun b => 0 <= b < 256) row_list.

End Frame.

(** A matrix with all rows dark, no time spent and nothing shown yet. *)
Definition dark_matrix : Frame.matrix :=
  {| Frame.digit_of := fun _ _ => 0; Frame.elapsed_ms := 0; Frame.shown := [] |}.

(** One repetition of the animation. *)
Definition one_repetition (row_list : list Z) (m : Frame.matrix) : Frame.matrix :=
  Frame.matrixDisplay_animate row_list 1 m.

(** What one pass of the shift-out phase does to the byte of a row. *)
Definition shift_left_byte (v : Z) : Z := (Z.shiftl (v mod 256) 1) mod 256.

(** The sixteen frames of one repetition of a bitmap: shifted right by 7
    down to 0 columns, then shifted left by 1 up to 8 columns. *)
Definition frames_of (row_list : list Z) : list (list Z) :=
  map (fun column => map (fun b => Z.shiftr b column) row_list)
      [7; 6; 5; 4; 3; 2; 1; 0]
  ++ map (fun column => map (fun b => (Z.shiftl b column) mod 256) row_list)
         [1; 2; 3; 4; 5; 6; 7; 8].

(** ** The speaker pin, toggle by toggle *)

Module Tone.

(** [PD5], from avr/io.h *)
Definition SPEAKER_PIN : Z := 5.

(** The 8-bit port register and the time spent in [_delay_us]. *)
Record speaker : Type := {
  PORTD : Z;
  elapsed_us : Z
}.

(** [PORTD |= (1 << SPEAKER_PIN)] *)
Definition set_pin (sp : speaker) : speaker :=
  {| PORTD := (Z.lor (PORTD sp) (Z.shiftl 1 SPEAKER_PIN)) mod 256;
     elapsed_us := elapsed_us sp |}.

(** [PORTD &= ~(1 << SPEAKER_PIN)] *)
Definition clear_pin (sp : speaker) : speaker :=
  {| PORTD := (Z.land (PORTD sp) (Z.lnot (Z.shiftl 1 SPEAKER_PIN))) mod 256;
     elapsed_us := elapsed_us sp |}.

Definition _delay_us (us : Z) (sp : speaker) : speaker :=
  {| PORTD := PORTD sp; elapsed_us := elapsed_us sp + us |}.

Definition in_int16 (z : Z) : bool := (-32768 <=? z) && (z <=? 32767).

(** [warningSounds] with the pin writes it makes.  On the AVR [int] and
    [size_t] have 16 bits: the product [timeMs * sounds_tuning] must fit an
    [int] ([None] is the overflow), and the comparison with the [size_t]
    counter reads it as an unsigned number. *)
Definition warningSounds (timeMs : Z) (sp : speaker) : option speaker :=
  let sounds_tuning := 2 in
  if in_int16 (timeMs * sounds_tuning) then
    Some
      (for_loop (count_up ((timeMs * sounds_tuning) mod 65536)) (fun _ sp =>
         let sp :=
           for_loop (count_up 255) (fun i sp =>
             if 100 >? i then set_pin sp else clear_pin sp) sp in
         _delay_us (1000 / sounds_tuning) sp) sp)
  else None.

End Tone.

(** One cycle of the tone: the 255 pin writes, then the delay. *)
Definition tone_cycle (sp : Tone.speaker) : Tone.speaker :=
  Tone._delay_us 500
    (for_loop (count_up 255) (fun i sp =>
       if 100 >? i then Tone.set_pin sp else Tone.clear_pin sp) sp).

(** A speaker with the port at 0 and no time spent. *)
Definition silent_speaker : Tone.speaker :=
  {| Tone.PORTD := 0; Tone.elapsed_us := 0 |}.

(** * Proofs *)

(** ** Machine integers and runs *)

Lemma wrap8_id z : in_int8 z -> wrap8 z = z.
Proof.
  unfold in_int8, wrap8; intros H.
  rewrite Z.mod_small by lia. lia.
Qed.

Lemma run_bind {A B} (m : prog A) (f : A -> prog B) s :
  run (bind m f) s =
  match run m s with
  | Returns a s' => run (f a) s'
  | Spins s' => Spins s'
  | Undefined => Undefined
  end.
Proof.
  revert s; induction m as [a | k IH | g k IH | | ]; intros s; cbn; auto.
Qed.

Ltac split_cond :=
  match goal with
  | |- context [if ?c then _ else _] =>
      match c with
      | context [if _ then _ else _] => fail 1
      | _ => destruct c eqn:?
      end
  end.

Lemma isNewResultValid_bootstrap s :
  s#test_frequency < 1 ->
  exists s', run isNewResultValid s = Returns 1 s' /\
             s'#test_frequency = wrap8 (s#test_frequency + 1) /\
             s'#temperature_previous = wrap8 s#temperature /\
             s'#humidity_previous = wrap8 s#humidity.
Proof.
  intros H. unfold isNewResultValid, ifg. cbn.
  destruct (Z.ltb_spec s#test_frequency 1); [ | lia ].
  cbn. eexists; repeat split; reflexivity.
Qed.

Lemma isNewResultValid_delta s :
  1 <= s#test_frequency ->
  exists v s', run isNewResultValid s = Returns v s' /\
    (v = 0 \/ v = 1) /\
    (v = 1 <-> Z.abs (s#temperature - s#temperature_previous) <= 5 /\
               Z.abs (s#humidity - s#humidity_previous) <= 5) /\
    s'#test_frequency = s#test_frequency /\
    (v = 1 -> s'#temperature_previous = wrap8 s#temperature /\
              s'#humidity_previous = wrap8 s#humidity) /\
    (v = 0 -> s' = s).
Proof.
  intros H. unfold isNewResultValid, ifg. cbn.
  destruct (Z.ltb_spec s#test_frequency 1); [ lia | ].
  cbn.
  destruct (Z.ltb_spec (s#temperature - s#temperature_previous) (-5));
    destruct (Z.gtb_spec (s#temperature - s#temperature_previous) 5); cbn;
    try (destruct (Z.ltb_spec (s#humidity - s#humidity_previous) (-5));
         destruct (Z.gtb_spec (s#humidity - s#humidity_previous) 5));
    cbn; do 2 eexists; (split; [ reflexivity | ]);
    repeat split; intros; try reflexivity; try discriminate; try lia; auto.
Qed.

Lemma last_accepted_from_some a l :
  exists a', last_accepted_from (Some a) l = Some a'.
Proof.
  revert a; induction l as [ | p l IH ]; intros a; cbn.
  - eauto.
  - destruct (snd p =? 1); apply IH.
Qed.

Lemma validator_log_remembers bs :
  forall s acc,
    Forall sample_in_int8 bs ->
    remembers acc s ->
    remembers (last_accepted_from acc (fst (validator_log bs s)))
              (snd (validator_log bs s)).
Proof.
  induction bs as [ | b bs IH ]; intros s acc Hbs Hacc; cbn [validator_log].
  - exact Hacc.
  - inversion Hbs as [ | ? ? [Ht Hh] Hbs' ]; subst.
    assert (Hcur : (present b s)#temperature = fst b /\
                   (present b s)#humidity = snd b).
    { cbn. split; apply wrap8_id; assumption. }
    destruct Hcur as [Hct Hch].
    destruct acc as [ a | ]; cbn in Hacc.
    + destruct Hacc as (Htf & Htp & Hhp).
      destruct (isNewResultValid_delta (present b s)) as
        (v & s' & Hrun & Hv & _ & Htf' & Hone & Hzero).
      { cbn. lia. }
      rewrite Hrun.
      destruct (validator_log bs s') as [l s''] eqn:Hlog. cbn.
      specialize (IH s').
      rewrite Hlog in IH. cbn in IH.
      destruct Hv as [-> | ->]; cbn.
      * apply IH; [ assumption | ].
        rewrite (Hzero eq_refl). cbn. auto.
      * apply IH; [ assumption | ].
        destruct (Hone eq_refl) as [Htp' Hhp'].
        cbn. rewrite Htf', Htp', Hhp', Hct, Hch.
        repeat split; try apply wrap8_id; auto.
    + destruct (isNewResultValid_bootstrap (present b s)) as
        (s' & Hrun & Htf' & Htp' & Hhp').
      { cbn. lia. }
      rewrite Hrun.
      destruct (validator_log bs s') as [l s''] eqn:Hlog. cbn.
      specialize (IH s').
      rewrite Hlog in IH. cbn in IH.
      apply IH; [ assumption | ].
      cbn. rewrite Htf', Htp', Hhp', Hct, Hch.
      change ((present b s)#test_frequency) with (s#test_frequency).
      rewrite Hacc. repeat split; try apply wrap8_id; auto.
Qed.

(** C2.  The first call of the Validator returns 1 whatever the sample.
    On every later call, with [a] the last sample it returned 1 for and [b]
    the new one, it returns 1 if both deltas are within 5 in absolute value
    and 0 otherwise. *)
Theorem validator_bootstrap_then_delta :
  (forall b : sample,
      exists s', run isNewResultValid (present b init_state) = Returns 1 s')
  /\
  (forall (hist : list sample) (b : sample),
      hist <> [] ->
      Forall sample_in_int8 hist ->
      sample_in_int8 b ->
      exists a v s',
        last_accepted (fst (validator_log hist init_state)) = Some a /\
        run isNewResultValid (present b (snd (validator_log hist init_state)))
          = Returns v s' /\
        (v = 0 \/ v = 1) /\
        (v = 1 <-> Z.abs (fst b - fst a) <= 5 /\ Z.abs (snd b - snd a) <= 5)).
Proof.
  split.
  - intros b.
    destruct (isNewResultValid_bootstrap (present b init_state)) as (s' & Hrun & _).
    + cbn. lia.
    + eauto.
  - intros hist b Hne Hhist [Ht Hh].
    pose proof (validator_log_remembers hist init_state None Hhist eq_refl) as Hrem.
    fold (last_accepted (fst (validator_log hist init_state))) in Hrem.
    assert (Hsome : exists a,
               last_accepted (fst (validator_log hist init_state)) = Some a).
    { destruct hist as [ | b0 hist ]; [ congruence | ].
      cbn [validator_log].
      destruct (isNewResultValid_bootstrap (present b0 init_state)) as (s1 & Hrun & _).
      { cbn. lia. }
      rewrite Hrun.
      destruct (validator_log hist s1) as [l s2]. cbn.
      unfold last_accepted. cbn. apply last_accepted_from_some. }
    destruct Hsome as [a Ha].
    rewrite Ha in Hrem. cbn in Hrem. destruct Hrem as (Htf & Htp & Hhp).
    set (s := snd (validator_log hist init_state)) in *.
    destruct (isNewResultValid_delta (present b s)) as
      (v & s' & Hrun & Hv & Hiff & _).
    { cbn. lia. }
    exists a, v, s'.
    split; [ exact Ha | ].
    split; [ exact Hrun | ].
    split; [ exact Hv | ].
    rewrite Hiff.
    change ((present b s)#temperature_previous) with (s#temperature_previous).
    change ((present b s)#humidity_previous) with (s#humidity_previous).
    change ((present b s)#temperature) with (wrap8 (fst b)).
    change ((present b s)#humidity) with (wrap8 (snd b)).
    rewrite !wrap8_id, Htp, Hhp by assumption.
    reflexivity.
Qed.

(** ** The foreground: [checkStats] *)

Ltac norm8 :=
  change (wrap8 1) with 1 in *;
  change (wrap8 0) with 0 in *;
  change (wrap8 (-1)) with (-1) in *.

Ltac frame_vars :=
  let x := fresh "x" in
  intros x; destruct x; cbn; intros; try congruence; try reflexivity.

Lemma check_limits_run cfg t h s :
  exists s',
    run (check_limits cfg t h) s = Returns tt s' /\
    s'#temp_exceeded_dir =
      direction_code (classify (bound (temp_limit_min cfg)) (bound (temp_limit_max cfg)) t) /\
    s'#hum_exceeded_dir =
      direction_code (classify (bound (hum_limit_min cfg)) (bound (hum_limit_max cfg)) h) /\
    s'#current_animation =
      (if (s'#hum_exceeded_dir =? 0) && (s'#temp_exceeded_dir =? 0)
       then 0 else 1) /\
    (forall x, x <> temp_exceeded_dir -> x <> hum_exceeded_dir ->
               x <> current_animation -> s'#x = s#x) /\
    out s' = out s /\ interrupts s' = interrupts s.
Proof.
  unfold check_limits, bound, classify, ifg.
  destruct (temp_limit_max cfg =? NULL), (temp_limit_max cfg <? t),
    (temp_limit_min cfg =? NULL), (t <? temp_limit_min cfg),
    (hum_limit_max cfg =? NULL), (hum_limit_max cfg <? h),
    (hum_limit_min cfg =? NULL), (h <? hum_limit_min cfg);
    cbn; norm8; cbn;
    (eexists; split; [ reflexivity | ]);
    cbn; norm8; cbn;
    repeat split; try frame_vars.
Qed.

Lemma adjust_extremes_run t h s :
  exists s',
    run (adjust_extremes t h) s = Returns tt s' /\
    s'#temperature_max = (if s#temperature_max <? t then wrap8 t else s#temperature_max) /\
    s'#temperature_min = (if s#temperature_min >? t then wrap8 t else s#temperature_min) /\
    s'#humidity_max = (if s#humidity_max <? h then wrap8 h else s#humidity_max) /\
    s'#humidity_min = (if s#humidity_min >? h then wrap8 h else s#humidity_min) /\
    (forall x, x <> temperature_max -> x <> temperature_min ->
               x <> humidity_max -> x <> humidity_min -> s'#x = s#x) /\
    out s' = out s /\ interrupts s' = interrupts s.
Proof.
  unfold adjust_extremes, ifg. cbn.
  destruct (s#temperature_max <? t); cbn;
    destruct (s#temperature_min >? t); cbn;
    destruct (s#humidity_max <? h); cbn;
    destruct (s#humidity_min >? h); cbn;
    (eexists; split; [ reflexivity | ]);
    cbn; repeat split; try frame_vars.
Qed.

Lemma checkStats_accepted cfg t h s :
  validates s = true ->
  exists s1, run isNewResultValid s = Returns 1 s1 /\
             run (checkStats cfg t h) s =
             run (check_limits cfg t h ;; adjust_extremes t h) s1 /\
             (forall x, x <> temperature_previous -> x <> humidity_previous ->
                        x <> test_frequency -> s1#x = s#x) /\
             out s1 = out s /\ interrupts s1 = interrupts s.
Proof.
  unfold validates, checkStats. rewrite run_bind.
  unfold isNewResultValid, ifg. cbn.
  repeat (split_cond; cbn); try discriminate; intros _;
    (eexists; split; [ reflexivity | ]);
    repeat split; try frame_vars.
Qed.

Lemma checkStats_rejected cfg t h s :
  validates s = false -> run (checkStats cfg t h) s = Returns tt s.
Proof.
  unfold validates, checkStats. rewrite run_bind.
  unfold isNewResultValid, ifg. cbn.
  repeat (split_cond; cbn); try discriminate; auto.
Qed.

(** What [checkStats] does with a sample the Validator accepts. *)
Lemma checkStats_accepted_run cfg t h s :
  validates s = true ->
  exists s',
    run (checkStats cfg t h) s = Returns tt s' /\
    s'#temp_exceeded_dir =
      direction_code (classify (bound (temp_limit_min cfg)) (bound (temp_limit_max cfg)) t) /\
    s'#hum_exceeded_dir =
      direction_code (classify (bound (hum_limit_min cfg)) (bound (hum_limit_max cfg)) h) /\
    s'#current_animation =
      (if (s'#hum_exceeded_dir =? 0) && (s'#temp_exceeded_dir =? 0) then 0 else 1) /\
    s'#temperature_max = (if s#temperature_max <? t then wrap8 t else s#temperature_max) /\
    s'#temperature_min = (if s#temperature_min >? t then wrap8 t else s#temperature_min) /\
    s'#humidity_max = (if s#humidity_max <? h then wrap8 h else s#humidity_max) /\
    s'#humidity_min = (if s#humidity_min >? h then wrap8 h else s#humidity_min) /\
    out s' = out s.
Proof.
  intros Hv.
  destruct (checkStats_accepted cfg t h s Hv) as (s1 & _ & -> & Hmem1 & Hout1 & _).
  rewrite run_bind.
  destruct (check_limits_run cfg t h s1) as
    (s2 & -> & Ht & Hh & Hc & Hmem2 & Hout2 & _).
  destruct (adjust_extremes_run t h s2) as
    (s3 & -> & Htmax & Htmin & Hhmax & Hhmin & Hmem3 & Hout3 & _).
  exists s3. split; [ reflexivity | ].
  rewrite !(Hmem3 temp_exceeded_dir), !(Hmem3 hum_exceeded_dir),
    (Hmem3 current_animation) by discriminate.
  rewrite Htmax, Htmin, Hhmax, Hhmin.
  rewrite (Hmem2 temperature_max), (Hmem2 temperature_min),
    (Hmem2 humidity_max), (Hmem2 humidity_min) by discriminate.
  rewrite (Hmem1 temperature_max), (Hmem1 temperature_min),
    (Hmem1 humidity_max), (Hmem1 humidity_min) by discriminate.
  repeat split; auto; congruence.
Qed.

(** ** The timer-overflow handler *)

Ltac flatten_log :=
  unfold logs, log; cbn; f_equal; f_equal; rewrite <- ?app_assoc; reflexivity.

Lemma printTempHum_Current_run t h s :
  run (printTempHum_Current t h) s
  = Returns tt (logs (pane (printTempHum_Current t h)) s).
Proof. cbn. flatten_log. Qed.

Lemma printTemp_History_run mx mn s :
  run (printTemp_History mx mn) s
  = Returns tt (logs (pane (printTemp_History mx mn)) s).
Proof. cbn. flatten_log. Qed.

Lemma printHum_History_run mx mn s :
  run (printHum_History mx mn) s
  = Returns tt (logs (pane (printHum_History mx mn)) s).
Proof. cbn. flatten_log. Qed.

Lemma printWarning_run cfg a d s :
  d = 1 \/ d = -1 ->
  run (printWarning cfg a d) s
  = Returns tt (logs (pane (printWarning cfg a d)) s).
Proof.
  intros [-> | ->]; unfold printWarning, pane;
    destruct (a =? 0); try destruct (a =? 1);
    cbn; flatten_log.
Qed.

Lemma printWarning_undefined cfg a d s :
  a = 0 \/ a = 1 ->
  (run (printWarning cfg a d) s = Undefined <-> d <> 1 /\ d <> -1).
Proof.
  intros Ha. unfold printWarning.
  destruct (Z.eqb_spec d 1) as [H1 | H1];
    destruct (Z.eqb_spec d (-1)) as [H2 | H2];
    destruct Ha as [-> | ->]; cbn;
    (split; [ try discriminate; auto | intros []; try congruence; auto ]).
Qed.

Lemma isr_pane_warning s a d :
  isr_pane s = Some (call_printWarning a d) ->
  (a = 0 /\ d = s#temp_exceeded_dir \/ a = 1 /\ d = s#hum_exceeded_dir) /\
  (d = 1 \/ d = -1).
Proof.
  unfold isr_pane.
  destruct (Z.eqb_spec s#display_step 0);
    destruct (Z.eqb_spec s#temp_exceeded_dir 1);
    destruct (Z.eqb_spec s#temp_exceeded_dir (-1));
    destruct (Z.eqb_spec s#display_step 1);
    destruct (Z.eqb_spec s#hum_exceeded_dir 1);
    destruct (Z.eqb_spec s#hum_exceeded_dir (-1));
    destruct (s#display_step <=? 2);
    destruct (s#display_step =? 3);
    destruct (s#display_step =? 4);
    cbn; intros H; inversion H; subst; split; auto.
Qed.

Lemma render_pane_run cfg s :
  run (render_pane cfg) s = Returns tt (logs (tick_pane cfg s) s).
Proof.
  unfold render_pane, tick_pane. cbn.
  destruct (isr_pane s) as [ c | ] eqn:Hc.
  - destruct c as [ a d | t h | mx mn | mx mn ]; cbn [invoke].
    + apply printWarning_run. apply isr_pane_warning in Hc. tauto.
    + apply printTempHum_Current_run.
    + apply printTemp_History_run.
    + apply printHum_History_run.
  - cbn. unfold logs. rewrite app_nil_r. destruct s; reflexivity.
Qed.

Lemma advance_display_step_run s :
  exists s',
    run advance_display_step s = Returns tt s' /\
    s'#display_step =
      (if wrap8 (s#display_step + 1) >? 4 then 0 else wrap8 (s#display_step + 1)) /\
    (forall x, x <> display_step -> s'#x = s#x) /\
    out s' = out s /\ interrupts s' = interrupts s.
Proof.
  unfold advance_display_step, ifg. cbn.
  destruct (wrap8 (s#display_step + 1) >? 4); cbn;
    (eexists; split; [ reflexivity | ]); cbn;
    repeat split; try frame_vars.
Qed.

Lemma advance_animation_run s :
  exists s',
    run advance_animation s = Returns tt s' /\
    out s' = out s ++ tick_animation s /\
    (forall x, x <> last_animation_done -> s'#x = s#x) /\
    s'#last_animation_done = s#last_animation_done /\
    interrupts s' = interrupts s.
Proof.
  unfold advance_animation, tick_animation, ifg. cbn.
  destruct (Z.eqb_spec s#last_animation_done 1) as [Hd | Hd]; cbn.
  - destruct (s#current_animation =? 0); cbn;
      [ | destruct (s#current_animation =? 1); cbn ];
      (eexists; split; [ reflexivity | ]); cbn;
      repeat split; try frame_vars; auto.
  - eexists; split; [ reflexivity | ].
    rewrite app_nil_r. repeat split.
Qed.

Lemma TIMER1_OVF_vect_run cfg s :
  exists s',
    run (TIMER1_OVF_vect cfg) s = Returns tt s' /\
    out s' = out s ++ tick_pane cfg s ++ tick_animation s /\
    (forall x, foreground_var x = true -> s'#x = s#x) /\
    s'#display_step =
      (if wrap8 (s#display_step + 1) >? 4 then 0 else wrap8 (s#display_step + 1)) /\
    s'#last_animation_done = s#last_animation_done /\
    interrupts s' = interrupts s.
Proof.
  unfold TIMER1_OVF_vect.
  rewrite run_bind, render_pane_run.
  set (s1 := logs (tick_pane cfg s) s).
  rewrite run_bind.
  destruct (advance_display_step_run s1) as (s2 & -> & Hstep & Hmem2 & Hout2 & Hint2).
  destruct (advance_animation_run s2) as (s3 & -> & Hout3 & Hmem3 & Hdone3 & Hint3).
  exists s3. split; [ reflexivity | ].
  assert (Hanim : tick_animation s2 = tick_animation s).
  { unfold tick_animation.
    rewrite (Hmem2 last_animation_done), (Hmem2 current_animation) by discriminate.
    reflexivity. }
  repeat split.
  - rewrite Hout3, Hout2, Hanim. unfold s1. cbn. rewrite app_assoc. reflexivity.
  - intros x Hx. rewrite Hmem3, Hmem2; [ reflexivity | | ];
      intros ->; discriminate.
  - rewrite Hmem3 by discriminate. exact Hstep.
  - rewrite Hdone3. apply Hmem2. discriminate.
  - rewrite Hint3, Hint2. reflexivity.
Qed.

(** ** Invariants under interruption *)

Section Keeps.

Variable P : state -> Prop.

Lemma keeps_run {A : Type} (p : prog A) :
  keeps P p ->
  forall s, P s ->
    match run p s with
    | Returns _ s' | Spins s' => P s'
    | Undefined => False
    end.
Proof.
  induction 1 as [ a | k Hk IH | f k Hf Hk IH | ]; intros s Hs; cbn.
  - exact Hs.
  - apply IH; exact Hs.
  - apply IH, Hf, Hs.
  - exact Hs.
Qed.

Variable cfg : limits.

Hypothesis tick_keeps :
  forall s s', P s -> run (TIMER1_OVF_vect cfg) s = Returns tt s' -> P s'.

Lemma irq_keeps s k :
  P s ->
  exists s', step cfg irq (s, k) = Some (s', k) /\ P s' /\
             exists l, out s' = out s ++ l.
Proof.
  intros Hs. unfold step.
  destruct (interrupts s).
  - destruct (TIMER1_OVF_vect_run cfg s) as (s' & Hrun & Hout & _).
    rewrite Hrun. exists s'. repeat split; eauto.
  - exists s. repeat split; auto. exists []. symmetry. apply app_nil_r.
Qed.

Hypothesis body_keeps : forall r, keeps P (main_loop_body cfg r).

Lemma step_keeps a s k :
  P s -> keeps P k ->
  exists s' k', step cfg a (s, k) = Some (s', k') /\ P s' /\ keeps P k'.
Proof.
  intros Hs Hk. destruct a as [ | r | ].
  - destruct Hk as [ u | k Hk | f k Hf Hk | ]; cbn;
      (do 2 eexists; split; [ reflexivity | split ]); auto using keeps.
  - destruct Hk as [ u | k Hk | f k Hf Hk | ]; cbn [step];
      (do 2 eexists; split; [ reflexivity | split ]); auto using keeps.
  - destruct (irq_keeps s k Hs) as (s' & Hstep & Hs' & _). eauto.
Qed.

Lemma exec_keeps sched :
  forall s k,
    P s -> keeps P k ->
    exists s' k', exec cfg sched (s, k) = Some (s', k') /\ P s' /\ keeps P k'.
Proof.
  induction sched as [ | a sched IH ]; intros s k Hs Hk; cbn [exec].
  - eauto.
  - destruct (step_keeps a s k Hs Hk) as (s1 & k1 & -> & Hs1 & Hk1).
    apply IH; assumption.
Qed.

End Keeps.

(** ** Subsequences of the log *)

Lemma subseq_nil a : subseq [] a.
Proof. destruct a; exact I. Qed.

Lemma subseq_app_r l a b : subseq l a -> subseq l (a ++ b).
Proof.
  revert l; induction a as [ | e' a IH ]; intros [ | e r ] H;
    try apply subseq_nil.
  - destruct H.
  - cbn in *. destruct H as [[-> H] | H]; [ left | right ]; auto.
Qed.

Lemma subseq_last e a : subseq [e] (a ++ [e]).
Proof.
  induction a as [ | e' a IH ]; cbn.
  - left. split; [ reflexivity | exact I ].
  - right. exact IH.
Qed.

Lemma subseq_snoc e l a : subseq l a -> subseq (l ++ [e]) (a ++ [e]).
Proof.
  revert l; induction a as [ | e' a IH ]; intros [ | x r ] H.
  - apply subseq_last.
  - destruct H.
  - cbn. right. apply subseq_last.
  - cbn in *. destruct H as [[-> H] | H]; [ left | right ].
    + split; [ reflexivity | apply IH; exact H ].
    + apply (IH (x :: r)). exact H.
Qed.

(** ** Straight-line code that ends in the endless loop *)

Section Halting.

Variable P : state -> Prop.
Variable cfg : limits.

Hypothesis tick_keeps :
  forall s s', P s -> run (TIMER1_OVF_vect cfg) s = Returns tt s' -> P s'.

Lemma steps_to_spin_zero k : steps_to_spin k = Some 0%nat -> k = Spin.
Proof.
  destruct k as [ u | k | f k | | ]; cbn; try discriminate; auto.
  destruct (steps_to_spin k); discriminate.
Qed.

Lemma will_log_spin l : will_log l Spin -> l = [].
Proof. intros H. inversion H. reflexivity. Qed.

(** The foreground's straight-line code under interruption: it keeps [P],
    counts down to its endless loop, and what it has logged plus what it
    will log stays the same sequence. *)
Lemma step_halting a s k n done todo :
  P s -> keeps P k ->
  steps_to_spin k = Some n ->
  subseq done (out s) -> will_log todo k ->
  exists s' k' done' todo',
    step cfg a (s, k) = Some (s', k') /\
    P s' /\ keeps P k' /\
    steps_to_spin k' = Some (n - count_fg [a])%nat /\
    done' ++ todo' = done ++ todo /\
    subseq done' (out s') /\ will_log todo' k'.
Proof.
  intros Hs Hk Hn Hdone Htodo. destruct a as [ | r | ].
  - (* the foreground moves *)
    destruct Htodo as [ | e l k Htodo | l f k Hgrow Htodo ]; cbn in Hn |- *.
    + injection Hn as <-.
      exists s, Spin, done, []. repeat split; auto using will_log.
    + destruct (steps_to_spin k) as [ m | ] eqn:Hm; [ | discriminate ].
      injection Hn as <-.
      inversion Hk as [ | | f' k' Hf Hk' | ]; subst.
      exists (log e s), k, (done ++ [e]), l.
      repeat split; auto.
      * rewrite Hm. f_equal. unfold count_fg. cbn. lia.
      * rewrite <- app_assoc. reflexivity.
      * cbn. apply subseq_snoc. exact Hdone.
    + destruct (steps_to_spin k) as [ m | ] eqn:Hm; [ | discriminate ].
      injection Hn as <-.
      inversion Hk as [ | | f' k' Hf Hk' | ]; subst.
      exists (f s), k, done, l.
      repeat split; auto.
      * rewrite Hm. f_equal. unfold count_fg. cbn. lia.
      * destruct (Hgrow s) as [l' ->]. apply subseq_app_r. exact Hdone.
  - (* a poll does not apply: the code never returns to the loop *)
    exists s, k, done, todo.
    replace (n - count_fg [poll r])%nat with n by (unfold count_fg; cbn; lia).
    repeat split; auto.
    destruct Htodo; reflexivity.
  - (* a tick *)
    destruct (irq_keeps P cfg tick_keeps s k Hs) as (s' & Hstep & Hs' & l & Hout).
    exists s', k, done, todo.
    replace (n - count_fg [irq])%nat with n by (unfold count_fg; cbn; lia).
    repeat split; auto.
    rewrite Hout. apply subseq_app_r. exact Hdone.
Qed.

Lemma exec_halting sched :
  forall s k n done todo,
    P s -> keeps P k ->
    steps_to_spin k = Some n ->
    subseq done (out s) -> will_log todo k ->
    exists s' k' done' todo',
      exec cfg sched (s, k) = Some (s', k') /\
      P s' /\
      steps_to_spin k' = Some (n - count_fg sched)%nat /\
      done' ++ todo' = done ++ todo /\
      subseq done' (out s') /\ will_log todo' k'.
Proof.
  induction sched as [ | a sched IH ]; intros s k n done todo Hs Hk Hn Hdone Htodo.
  - exists s, k, done, todo. cbn.
    replace (n - 0)%nat with n by lia. repeat split; auto.
  - destruct (step_halting a s k n done todo Hs Hk Hn Hdone Htodo) as
      (s1 & k1 & done1 & todo1 & Hstep & Hs1 & Hk1 & Hn1 & Hsplit & Hdone1 & Htodo1).
    destruct (IH s1 k1 _ done1 todo1 Hs1 Hk1 Hn1 Hdone1 Htodo1) as
      (s2 & k2 & done2 & todo2 & Hexec & Hs2 & Hn2 & Hsplit2 & Hdone2 & Htodo2).
    exists s2, k2, done2, todo2.
    cbn [exec]. rewrite Hstep.
    repeat split; auto.
    + rewrite Hn2. f_equal.
      destruct a; unfold count_fg; cbn; lia.
    + congruence.
Qed.

End Halting.

(** ** The selectors hold only assigned values *)

Lemma heart_free_snoc l e :
  heart_free l ->
  (forall repetitions, e <> matrix_animation LEDMATRIX_HEART repetitions) ->
  heart_free (l ++ [e]).
Proof.
  intros Hl He n Hin. apply in_app_or in Hin. destruct Hin as [Hin | [Hin | []]].
  - exact (Hl n Hin).
  - exact (He n Hin).
Qed.

Lemma heart_free_app l l' :
  heart_free l -> heart_free l' -> heart_free (l ++ l').
Proof.
  intros Hl Hl' n Hin. apply in_app_or in Hin. destruct Hin as [Hin | Hin].
  - exact (Hl n Hin).
  - exact (Hl' n Hin).
Qed.

Lemma pane_events_heart_free l : Forall pane_event l -> heart_free l.
Proof.
  intros Hl n Hin. rewrite Forall_forall in Hl. exact (Hl _ Hin).
Qed.

Ltac selectors_update :=
  match goal with
  | H : selectors_ok _ |- selectors_ok _ =>
      destruct H as (? & ? & ? & ?);
      unfold selectors_ok, dir_ok, anim_check, anim_warning in *;
      cbn; norm8;
      repeat split; auto;
      try (apply heart_free_snoc; [ assumption | discriminate ])
  end.

Ltac keeps_walk solve_update :=
  cbn;
  repeat first
    [ apply keeps_ret
    | apply keeps_spin
    | apply keeps_upd; [ intros ? ?; solve_update | ]
    | apply keeps_rd; intros ? ?
    | split_cond ].

Lemma selectors_ok_init : selectors_ok init_state.
Proof.
  unfold selectors_ok, dir_ok, anim_check, anim_warning, heart_free.
  cbn. repeat split; auto.
Qed.

Lemma main_setup_keeps_selectors cfg : keeps selectors_ok (main_setup cfg).
Proof.
  unfold main_setup, emit, assign. keeps_walk ltac:(idtac; selectors_update).
Qed.

Lemma main_loop_body_keeps_selectors cfg r :
  keeps selectors_ok (main_loop_body cfg r).
Proof.
  unfold main_loop_body, dht_gettemperaturehumidity, checkStats, isNewResultValid,
    check_limits, adjust_extremes, ifg, emit, assign, assign_expr.
  keeps_walk ltac:(idtac; try unfold dht_answer; try destruct (dht_stored r) as [[? ?] | ];
                   selectors_update).
Qed.

Lemma tick_pane_events cfg s : Forall pane_event (tick_pane cfg s).
Proof.
  unfold tick_pane.
  destruct (isr_pane s) as [ [ a d | t h | mx mn | mx mn ] | ];
    cbn [invoke]; try (cbn; repeat constructor).
  unfold pane, printWarning.
  destruct (a =? 0); [ | destruct (a =? 1) ];
    destruct (d =? 1); try destruct (d =? -1);
    cbn; repeat constructor.
Qed.

Lemma tick_animation_heart_free s :
  s#current_animation = anim_check \/ s#current_animation = anim_warning ->
  heart_free (tick_animation s).
Proof.
  unfold tick_animation, anim_check, anim_warning.
  intros Hc n.
  destruct (s#last_animation_done =? 1); [ | intros [] ].
  destruct Hc as [-> | ->]; cbn; intros [H | []]; discriminate.
Qed.

Lemma tick_keeps_selectors cfg s s' :
  selectors_ok s -> run (TIMER1_OVF_vect cfg) s = Returns tt s' -> selectors_ok s'.
Proof.
  intros (Ht & Hh & Hc & Hfree) Hrun.
  destruct (TIMER1_OVF_vect_run cfg s) as (s1 & Hrun1 & Hout & Hmem & _).
  rewrite Hrun in Hrun1. injection Hrun1 as <-.
  unfold selectors_ok.
  rewrite !Hmem by reflexivity. rewrite Hout.
  repeat split; auto.
  apply heart_free_app; [ assumption | ].
  apply heart_free_app.
  - apply pane_events_heart_free, tick_pane_events.
  - apply tick_animation_heart_free. assumption.
Qed.

(** Whatever the schedule, the machine runs on, and the selectors hold only
    assigned values. *)
Lemma reachable_selectors_ok cfg sched :
  exists s k, exec cfg sched (boot cfg) = Some (s, k) /\ selectors_ok s.
Proof.
  destruct (exec_keeps selectors_ok cfg (tick_keeps_selectors cfg)
              (main_loop_body_keeps_selectors cfg) sched init_state (main_setup cfg)
              selectors_ok_init (main_setup_keeps_selectors cfg))
    as (s & k & Hexec & Hs & _).
  eauto.
Qed.

(** ** A configuration error *)

Lemma untouched_init : untouched init_state.
Proof. split; [ reflexivity | intros [] ]. Qed.

Ltac untouched_update :=
  match goal with
  | H : untouched _ |- untouched _ =>
      let Hmem := fresh "Hmem" in
      let Hread := fresh "Hread" in
      destruct H as [Hmem Hread]; split;
      [ let x := fresh "x" in
        let Hx := fresh "Hx" in
        intros x Hx; specialize (Hmem x Hx); destruct x; cbn in *; norm8;
        try discriminate; try assumption; try reflexivity
      | cbn;
        first
          [ exact Hread
          | let Hin := fresh "Hin" in
            intros Hin; apply in_app_or in Hin;
            destruct Hin as [Hin | [Hin | []]]; [ auto | discriminate ] ] ]
  end.

Lemma config_error_cond cfg :
  config_error cfg ->
  (temp_limit_min cfg >? temp_limit_max cfg)
  || (hum_limit_min cfg >? hum_limit_max cfg) = true.
Proof.
  intros [H | H]; apply orb_true_iff; [ left | right ];
    apply Z.gtb_lt; lia.
Qed.

Lemma main_setup_keeps_untouched cfg :
  config_error cfg -> keeps untouched (main_setup cfg).
Proof.
  intros Hcfg. unfold main_setup. rewrite (config_error_cond cfg Hcfg).
  unfold emit, assign. keeps_walk ltac:(idtac; untouched_update).
Qed.

Lemma tick_keeps_untouched cfg s s' :
  untouched s -> run (TIMER1_OVF_vect cfg) s = Returns tt s' -> untouched s'.
Proof.
  intros [Hmem Hread] Hrun.
  destruct (TIMER1_OVF_vect_run cfg s) as (s1 & Hrun1 & Hout & Hmem1 & _).
  rewrite Hrun in Hrun1. injection Hrun1 as <-.
  split.
  - intros x Hx. rewrite (Hmem1 x Hx). apply Hmem, Hx.
  - rewrite Hout. intros Hin.
    apply in_app_or in Hin. destruct Hin as [Hin | Hin]; [ auto | ].
    apply in_app_or in Hin. destruct Hin as [Hin | Hin].
    + pose proof (tick_pane_events cfg s) as Hp.
      rewrite Forall_forall in Hp. exact (Hp _ Hin).
    + unfold tick_animation in Hin.
      destruct (s#last_animation_done =? 1); [ | destruct Hin ].
      destruct Hin as [Hin | []]. discriminate.
Qed.

Ltac grows_update :=
  let s := fresh "s" in
  intros s; cbn;
  first [ eexists; reflexivity | exists []; symmetry; apply app_nil_r ].

Lemma main_setup_halts cfg :
  config_error cfg ->
  steps_to_spin (main_setup cfg) = Some 25%nat /\
  will_log config_error_pane (main_setup cfg).
Proof.
  intros Hcfg. unfold main_setup. rewrite (config_error_cond cfg Hcfg).
  unfold emit, assign, config_error_pane. cbn.
  split; [ reflexivity | ].
  repeat first
    [ apply will_log_nil
    | apply will_log_now
    | apply will_log_later; [ grows_update | ] ].
Qed.

(** ** The foreground claims *)

(** C6, as the code has it.  For every sample the Validator accepts,
    [checkStats] leaves in [temp_exceeded_dir] and [hum_exceeded_dir] the
    classification of the sample against the bounds, each attribute on its
    own: Over above an upper bound, else Under below a lower bound, else
    Nominal.  A limit is a bound when it differs from [NULL], which is the
    number 0: a limit configured as 0 is no bound, like one left unset. *)
Theorem limit_evaluator_classifies cfg t h s :
  validates s = true ->
  exists s',
    run (checkStats cfg t h) s = Returns tt s' /\
    s'#temp_exceeded_dir =
      direction_code (classify (bound (temp_limit_min cfg)) (bound (temp_limit_max cfg)) t) /\
    s'#hum_exceeded_dir =
      direction_code (classify (bound (hum_limit_min cfg)) (bound (hum_limit_max cfg)) h).
Proof.
  intros Hv.
  destruct (checkStats_accepted_run cfg t h s Hv) as (s' & Hrun & Ht & Hh & _).
  exists s'. auto.
Qed.

(** A value equal to a bound is Nominal; an unset bound is never exceeded. *)
Lemma classify_at_bound l u :
  l <= u ->
  classify (Some l) (Some u) l = Nominal /\
  classify (Some l) (Some u) u = Nominal.
Proof.
  intros Hle. unfold classify. rewrite !Z.ltb_irrefl.
  destruct (Z.ltb_spec u l); [ lia | ].
  split; reflexivity.
Qed.

Lemma classify_unset_upper lower value :
  classify lower None value <> Over.
Proof.
  unfold classify. destruct lower as [ l | ]; [ destruct (value <? l) | ]; discriminate.
Qed.

Lemma classify_unset_lower upper value :
  classify None upper value <> Under.
Proof.
  unfold classify. destruct upper as [ u | ]; [ destruct (u <? value) | ]; discriminate.
Qed.

(** The values of the specification's example: limits 20 and 30. *)
Example classify_examples :
  classify (bound 20) (bound 30) 19 = Under /\
  classify (bound 20) (bound 30) 20 = Nominal /\
  classify (bound 20) (bound 30) 30 = Nominal /\
  classify (bound 20) (bound 30) 31 = Over /\
  classify (bound 20) (bound NULL) 31 = Nominal.
Proof. repeat split. Qed.

(** C7.  For every accepted sample [checkStats] leaves [current_animation]
    at Warning when a direction is not Nominal and at Check when both are;
    in every state the machine reaches the selector is Check or Warning
    and the heart has never been animated: the handler animates the heart
    only for a selector that is neither. *)
Theorem animation_selection cfg :
  (forall t h s,
      validates s = true ->
      exists s',
        run (checkStats cfg t h) s = Returns tt s' /\
        (s'#temp_exceeded_dir <> 0 \/ s'#hum_exceeded_dir <> 0 ->
         s'#current_animation = anim_warning) /\
        (s'#temp_exceeded_dir = 0 /\ s'#hum_exceeded_dir = 0 ->
         s'#current_animation = anim_check)) /\
  (forall sched,
      exists s k,
        exec cfg sched (boot cfg) = Some (s, k) /\
        (s#current_animation = anim_check \/ s#current_animation = anim_warning) /\
        heart_free (out s)) /\
  (forall s repetitions,
      In (matrix_animation LEDMATRIX_HEART repetitions) (tick_animation s) ->
      s#current_animation <> anim_check /\ s#current_animation <> anim_warning).
Proof.
  split; [ | split ].
  - intros t h s Hv.
    destruct (checkStats_accepted_run cfg t h s Hv) as (s' & Hrun & _ & _ & Hc & _).
    exists s'. split; [ exact Hrun | ].
    rewrite Hc. unfold anim_warning, anim_check.
    destruct (Z.eqb_spec s'#hum_exceeded_dir 0), (Z.eqb_spec s'#temp_exceeded_dir 0);
      cbn; split; intros; auto; tauto.
  - intros sched.
    destruct (reachable_selectors_ok cfg sched) as (s & k & Hexec & _ & _ & Hc & Hfree).
    exists s, k. auto.
  - intros s n. unfold tick_animation, anim_check, anim_warning.
    destruct (s#last_animation_done =? 1); [ | intros [] ].
    destruct (Z.eqb_spec s#current_animation 0);
      [ | destruct (Z.eqb_spec s#current_animation 1) ];
      cbn; intros [H | []]; try discriminate; auto.
Qed.

(** C3, as the code has it.  For every accepted sample each tracked
    maximum becomes the larger of itself and the sample and each tracked
    minimum the smaller, whatever the limits are; so maxima never decrease
    and minima never increase.  From the initial seeds 0 and 99, a first
    sample between 0 and 99 becomes both bounds of its attribute. *)
Theorem extremes_track_accepted_samples cfg t h s :
  in_int8 t -> in_int8 h ->
  validates s = true ->
  exists s',
    run (checkStats cfg t h) s = Returns tt s' /\
    s'#temperature_max = Z.max s#temperature_max t /\
    s'#temperature_min = Z.min s#temperature_min t /\
    s'#humidity_max = Z.max s#humidity_max h /\
    s'#humidity_min = Z.min s#humidity_min h /\
    (s#temperature_max <= s'#temperature_max /\
     s'#temperature_min <= s#temperature_min /\
     s#humidity_max <= s'#humidity_max /\
     s'#humidity_min <= s#humidity_min) /\
    (s#temperature_max = initial_value temperature_max ->
     s#temperature_min = initial_value temperature_min ->
     0 <= t <= 99 ->
     s'#temperature_max = t /\ s'#temperature_min = t) /\
    (s#humidity_max = initial_value humidity_max ->
     s#humidity_min = initial_value humidity_min ->
     0 <= h <= 99 ->
     s'#humidity_max = h /\ s'#humidity_min = h).
Proof.
  intros Ht Hh Hv.
  destruct (checkStats_accepted_run cfg t h s Hv) as
    (s' & Hrun & _ & _ & _ & Htmax & Htmin & Hhmax & Hhmin & _).
  exists s'. split; [ exact Hrun | ].
  rewrite (wrap8_id t Ht) in Htmax, Htmin.
  rewrite (wrap8_id h Hh) in Hhmax, Hhmin.
  assert (E1 : s'#temperature_max = Z.max s#temperature_max t).
  { rewrite Htmax. destruct (Z.ltb_spec s#temperature_max t); lia. }
  assert (E2 : s'#temperature_min = Z.min s#temperature_min t).
  { rewrite Htmin. destruct (Z.gtb_spec s#temperature_min t); lia. }
  assert (E3 : s'#humidity_max = Z.max s#humidity_max h).
  { rewrite Hhmax. destruct (Z.ltb_spec s#humidity_max h); lia. }
  assert (E4 : s'#humidity_min = Z.min s#humidity_min h).
  { rewrite Hhmin. destruct (Z.gtb_spec s#humidity_min h); lia. }
  rewrite E1, E2, E3, E4. cbn [initial_value].
  repeat split; try lia.
Qed.

(** C9.  A sample the Validator rejects changes nothing: [checkStats]
    returns in the state it was called in, and over the whole pass through
    the loop only the sample itself, stored by the sensor driver, and the
    log entry of the read differ. *)
Theorem rejected_sample_inert cfg :
  (forall t h s,
      validates s = false ->
      run (checkStats cfg t h) s = Returns tt s) /\
  (forall r s,
      dht_status r <> -1 ->
      validates (dht_answer r s) = false ->
      exists s',
        run (main_loop_body cfg r) s = Returns tt s' /\
        (forall x, x <> temperature -> x <> humidity -> s'#x = s#x) /\
        out s' = out s ++ [dht_read]).
Proof.
  split.
  - intros t h s Hv. apply checkStats_rejected. exact Hv.
  - intros r s Hstatus Hv.
    unfold main_loop_body. rewrite run_bind. cbn [dht_gettemperaturehumidity run].
    destruct (Z.eqb_spec (dht_status r) (-1)) as [ | _ ]; [ contradiction | ].
    cbn [negb run].
    rewrite (checkStats_rejected cfg _ _ _ Hv).
    exists (dht_answer r s). split; [ reflexivity | ].
    unfold dht_answer.
    destruct (dht_stored r) as [ [t h] | ];
      (split; [ frame_vars | reflexivity ]).
Qed.

(** C4, as the code has it.  A failed sensor read leaves the Validator's
    memory, both directions and all four extremes as they were, selects the
    Warning animation, and writes the input-error text to the display. *)
Theorem failed_read_frame cfg r s :
  dht_status r = -1 ->
  exists s',
    run (main_loop_body cfg r) s = Returns tt s' /\
    (forall x,
        In x [temperature_previous; humidity_previous; test_frequency;
              temp_exceeded_dir; hum_exceeded_dir;
              temperature_max; temperature_min; humidity_max; humidity_min] ->
        s'#x = s#x) /\
    s'#current_animation = anim_warning /\
    out s' = out s ++ dht_read :: input_error_pane.
Proof.
  intros Hstatus.
  unfold main_loop_body. rewrite run_bind. cbn [dht_gettemperaturehumidity run].
  rewrite Hstatus. cbn.
  eexists. split; [ reflexivity | ].
  unfold dht_answer.
  destruct (dht_stored r) as [ [t h] | ]; cbn; norm8;
    (split; [ | split; [ reflexivity | rewrite <- !app_assoc; reflexivity ] ]);
    intros x Hx; cbn in Hx;
    repeat (destruct Hx as [<- | Hx]; [ reflexivity | ]); destruct Hx.
Qed.

(** ** The machine claims *)

(** C5, as the code has it.  With, for the temperature or for the
    humidity, both limits configured (neither left at [NULL]) and the
    minimum above the maximum, the sensor is never read and the foreground
    never changes one of its variables (the animation selector stays at
    Warning); once [main] has made its 25 start-up actions it is in its
    endless empty loop and the configuration-error text has been written
    to the display. *)
Theorem config_error_halts cfg sched :
  configured_error cfg ->
  exists s k,
    exec cfg sched (boot cfg) = Some (s, k) /\
    ~ In dht_read (out s) /\
    (forall x, foreground_var x = true -> s#x = initial_value x) /\
    s#current_animation = anim_warning /\
    ((25 <= count_fg sched)%nat ->
     k = Spin /\ subseq config_error_pane (out s)).
Proof.
  intros Hconf.
  assert (Hcfg : config_error cfg).
  { destruct Hconf as [(_ & _ & Habove) | (_ & _ & Habove)];
      [ left | right ]; exact Habove. }
  destruct (main_setup_halts cfg Hcfg) as [Hsteps Hlog].
  destruct (exec_halting untouched cfg (tick_keeps_untouched cfg) sched
              init_state (main_setup cfg) 25%nat [] config_error_pane
              untouched_init (main_setup_keeps_untouched cfg Hcfg)
              Hsteps I Hlog)
    as (s & k & done & todo & Hexec & [Hmem Hread] & Hn & Hsplit & Hdone & Htodo).
  exists s, k.
  split; [ exact Hexec | ].
  split; [ exact Hread | ].
  split; [ exact Hmem | ].
  split; [ apply (Hmem current_animation); reflexivity | ].
  intros Hcount.
  replace (25 - count_fg sched)%nat with 0%nat in Hn by lia.
  apply steps_to_spin_zero in Hn. subst k.
  apply will_log_spin in Htodo. subst todo.
  rewrite app_nil_r in Hsplit. cbn in Hsplit. subst done.
  split; [ reflexivity | exact Hdone ].
Qed.

(** C8.  A tick logs its pane, then its animation.  At step 0 with the
    temperature direction Over or Under the pane is the temperature alarm
    of [printWarning], at step 1 with the humidity direction Over or Under
    the humidity alarm, neither being the current-values pane; at steps 0
    and 1 with both directions Nominal, and at step 2 always, it is the
    current-values pane of [printTempHum_Current]. *)
Theorem pane_override cfg s :
  exists s',
    run (TIMER1_OVF_vect cfg) s = Returns tt s' /\
    out s' = out s ++ tick_pane cfg s ++ tick_animation s /\
    (s#display_step = 0 ->
     s#temp_exceeded_dir = 1 \/ s#temp_exceeded_dir = -1 ->
     tick_pane cfg s = pane (printWarning cfg 0 s#temp_exceeded_dir) /\
     tick_pane cfg s <> pane (printTempHum_Current s#temperature s#humidity)) /\
    (s#display_step = 1 ->
     s#hum_exceeded_dir = 1 \/ s#hum_exceeded_dir = -1 ->
     tick_pane cfg s = pane (printWarning cfg 1 s#hum_exceeded_dir) /\
     tick_pane cfg s <> pane (printTempHum_Current s#temperature s#humidity)) /\
    (s#display_step = 0 \/ s#display_step = 1 ->
     s#temp_exceeded_dir = 0 -> s#hum_exceeded_dir = 0 ->
     tick_pane cfg s = pane (printTempHum_Current s#temperature s#humidity)) /\
    (s#display_step = 2 ->
     tick_pane cfg s = pane (printTempHum_Current s#temperature s#humidity)).
Proof.
  destruct (TIMER1_OVF_vect_run cfg s) as (s' & Hrun & Hout & _).
  exists s'. split; [ exact Hrun | ]. split; [ exact Hout | ].
  unfold tick_pane, isr_pane.
  split; [ | split; [ | split ] ].
  - intros Hstep Hdir. rewrite Hstep.
    destruct Hdir as [-> | ->]; cbn; split; [ reflexivity | discriminate | reflexivity | discriminate ].
  - intros Hstep Hdir. rewrite Hstep.
    destruct Hdir as [-> | ->]; cbn; split; [ reflexivity | discriminate | reflexivity | discriminate ].
  - intros [-> | ->] -> ->; reflexivity.
  - intros ->; reflexivity.
Qed.

(** C10.  Whatever the schedule, the machine never runs into undefined
    behaviour and both direction variables hold -1, 0 or 1; the handler
    calls [printWarning] only with a direction of 1 or -1; and
    [printWarning] prints its limit buffer unwritten exactly for the other
    directions.  So that branch is never taken. *)
Theorem uninitialised_limit_unreachable cfg :
  (forall sched,
      exists s k,
        exec cfg sched (boot cfg) = Some (s, k) /\
        dir_ok s#temp_exceeded_dir /\ dir_ok s#hum_exceeded_dir) /\
  (forall s tempOrHum exceeded_dir,
      isr_pane s = Some (call_printWarning tempOrHum exceeded_dir) ->
      (tempOrHum = 0 \/ tempOrHum = 1) /\ (exceeded_dir = 1 \/ exceeded_dir = -1)) /\
  (forall s tempOrHum exceeded_dir,
      tempOrHum = 0 \/ tempOrHum = 1 ->
      (run (printWarning cfg tempOrHum exceeded_dir) s = Undefined <->
       exceeded_dir <> 1 /\ exceeded_dir <> -1)) /\
  (forall s, exists s', run (TIMER1_OVF_vect cfg) s = Returns tt s').
Proof.
  split; [ | split; [ | split ] ].
  - intros sched.
    destruct (reachable_selectors_ok cfg sched) as (s & k & Hexec & Ht & Hh & _).
    exists s, k. auto.
  - intros s a d Hcall.
    destruct (isr_pane_warning s a d Hcall) as [Ha Hd].
    split; [ tauto | exact Hd ].
  - intros s a d Ha. apply printWarning_undefined. exact Ha.
  - intros s.
    destruct (TIMER1_OVF_vect_run cfg s) as (s' & Hrun & _).
    exists s'. exact Hrun.
Qed.

(** ** The humidity history pane *)

(** C1 does not hold of the code: the handler passes [humidity], not
    [humidity_max], to [printHum_History].  After samples with humidity 40,
    45 and 42 the running maximum is 45, and the tick of step 4 writes the
    current sample 42 to the display as the maximum. *)
Theorem humidity_history_shows_current_sample :
  exists s k s',
    exec user_configuration three_samples_four_ticks (boot user_configuration)
      = Some (s, k) /\
    s#display_step = 4 /\
    s#humidity_max = 45 /\ s#humidity_min = 40 /\ s#humidity = 42 /\
    run (TIMER1_OVF_vect user_configuration) s = Returns tt s' /\
    out s' = out s
             ++ [lcd_goto 0; lcd_puts "Hum. history:    "; lcd_goto 0x40;
                 lcd_puts "Min "; lcd_puts "40"; lcd_puts "% Max ";
                 lcd_puts "42"; lcd_puts "%   "]
             ++ [matrix_animation LEDMATRIX_CHECK 1].
Proof.
  do 3 eexists.
  split; [ vm_compute; reflexivity | ].
  repeat split.
Qed.

(** ** The theorems at concrete inputs *)

Lemma validator_bootstrap_then_delta_witness :
  exists a v s',
    last_accepted (fst (validator_log [(25, 40)] init_state)) = Some a /\
    run isNewResultValid (present (30, 45) (snd (validator_log [(25, 40)] init_state)))
      = Returns v s' /\
    (v = 0 \/ v = 1) /\
    (v = 1 <-> Z.abs (30 - fst a) <= 5 /\ Z.abs (45 - snd a) <= 5).
Proof.
  apply (proj2 validator_bootstrap_then_delta [(25, 40)] (30, 45)).
  - discriminate.
  - constructor; [ split; unfold in_int8; cbn; lia | constructor ].
  - split; unfold in_int8; cbn; lia.
Defined.

Lemma extremes_track_accepted_samples_witness :
  in_int8 25 /\ in_int8 40 /\
  validates (present (25, 40) init_state) = true /\
  exists s',
    run (checkStats user_configuration 25 40) (present (25, 40) init_state)
      = Returns tt s' /\
    s'#temperature_max = 25 /\ s'#temperature_min = 25 /\
    s'#humidity_max = 40 /\ s'#humidity_min = 40.
Proof.
  assert (H25 : in_int8 25) by (unfold in_int8; lia).
  assert (H40 : in_int8 40) by (unfold in_int8; lia).
  repeat (split; [ first [ assumption | reflexivity ] | ]).
  destruct (extremes_track_accepted_samples user_configuration 25 40
              (present (25, 40) init_state) H25 H40 eq_refl)
    as (s' & Hrun & _ & _ & _ & _ & _ & Hfirst_t & Hfirst_h).
  exists s'. split; [ exact Hrun | ].
  destruct (Hfirst_t eq_refl eq_refl ltac:(lia)) as [-> ->].
  destruct (Hfirst_h eq_refl eq_refl ltac:(lia)) as [-> ->].
  repeat split.
Defined.

Lemma failed_read_frame_witness :
  dht_status dht_error = -1 /\
  exists s',
    run (main_loop_body user_configuration dht_error) after_first_sample
      = Returns tt s' /\
    s'#temperature_previous = 25 /\ s'#temperature_max = 25 /\
    s'#temp_exceeded_dir = 0 /\
    s'#current_animation = anim_warning.
Proof.
  split; [ reflexivity | ].
  destruct (failed_read_frame user_configuration dht_error after_first_sample eq_refl)
    as (s' & Hrun & Hmem & Hanim & _).
  exists s'. split; [ exact Hrun | ].
  rewrite (Hmem temperature_previous), (Hmem temperature_max),
    (Hmem temp_exceeded_dir) by (cbn; tauto).
  repeat split. exact Hanim.
Defined.

Lemma config_error_halts_witness :
  configured_error inverted_limits /\
  exists s,
    exec inverted_limits (repeat fg 25) (boot inverted_limits) = Some (s, Spin) /\
    ~ In dht_read (out s) /\
    subseq config_error_pane (out s).
Proof.
  assert (Hcfg : configured_error inverted_limits)
    by (left; unfold configured_above, NULL; cbn; lia).
  split; [ exact Hcfg | ].
  destruct (config_error_halts inverted_limits (repeat fg 25) Hcfg)
    as (s & k & Hexec & Hread & _ & _ & Hhalt).
  destruct (Hhalt ltac:(cbn; lia)) as [-> Hpane].
  exists s. auto.
Defined.

Lemma limit_evaluator_classifies_witness :
  validates (present (31, 40) init_state) = true /\
  exists s',
    run (checkStats user_configuration 31 40) (present (31, 40) init_state)
      = Returns tt s' /\
    s'#temp_exceeded_dir = direction_code Over /\
    s'#hum_exceeded_dir = direction_code Nominal.
Proof.
  split; [ reflexivity | ].
  exact (limit_evaluator_classifies user_configuration 31 40
           (present (31, 40) init_state) eq_refl).
Defined.

Lemma animation_selection_witness :
  validates (present (31, 40) init_state) = true /\
  exists s',
    run (checkStats user_configuration 31 40) (present (31, 40) init_state)
      = Returns tt s' /\
    s'#current_animation = anim_warning.
Proof.
  split; [ reflexivity | ].
  destruct (proj1 (animation_selection user_configuration) 31 40
              (present (31, 40) init_state) eq_refl)
    as (s' & Hrun & Hwarning & _).
  exists s'. split; [ exact Hrun | ].
  apply Hwarning. left.
  vm_compute in Hrun. injection Hrun as <-.
  discriminate.
Defined.

Lemma pane_override_witness :
  (set temp_exceeded_dir 1 init_state)#display_step = 0 /\
  tick_pane user_configuration (set temp_exceeded_dir 1 init_state)
  = [lcd_goto 0; lcd_puts "HIGH TEMPERATURE"; lcd_goto 0x40; lcd_puts "Over ";
     lcd_puts "30"; lcd_puts "C limit! "; speaker_tone 2000].
Proof.
  split; [ reflexivity | ].
  destruct (pane_override user_configuration (set temp_exceeded_dir 1 init_state))
    as (s' & _ & _ & Hstep0 & _).
  destruct (Hstep0 eq_refl (or_introl eq_refl)) as [Hpane _].
  rewrite Hpane. reflexivity.
Defined.

Lemma rejected_sample_inert_witness :
  validates (present (36, 40) after_first_sample) = false /\
  run (checkStats user_configuration 36 40) (present (36, 40) after_first_sample)
  = Returns tt (present (36, 40) after_first_sample).
Proof.
  split; [ reflexivity | ].
  apply (proj1 (rejected_sample_inert user_configuration)).
  reflexivity.
Defined.

Lemma uninitialised_limit_unreachable_witness :
  isr_pane (set temp_exceeded_dir (-1) init_state) = Some (call_printWarning 0 (-1)) /\
  (0 = 0 \/ 0 = 1) /\ (-1 = 1 \/ -1 = -1).
Proof.
  split; [ reflexivity | ].
  apply (proj1 (proj2 (uninitialised_limit_unreachable user_configuration))
           (set temp_exceeded_dir (-1) init_state)).
  reflexivity.
Defined.

(** ** Where the specification and the code part *)

(** C3 as stated fails: a first accepted temperature of -5 becomes the
    minimum, but the maximum stays at its seed 0. *)
Lemma first_sample_below_zero_keeps_seed :
  exists s',
    passes user_configuration [dht_ok (-5) 40] init_state = Some s' /\
    validates (dht_answer (dht_ok (-5) 40) init_state) = true /\
    s'#temperature_min = -5 /\
    s'#temperature_max = 0 /\
    s'#temperature_max <> -5.
Proof.
  eexists. split; [ vm_compute; reflexivity | ].
  repeat split. discriminate.
Qed.

(** C4 as stated fails: after an accepted sample within the limits the
    selector is Check, and a failed read sets it to Warning. *)
Lemma failed_read_selects_warning :
  exists s',
    run (main_loop_body user_configuration dht_error) after_first_sample
      = Returns tt s' /\
    after_first_sample#current_animation = anim_check /\
    s'#current_animation = anim_warning /\
    s'#current_animation <> after_first_sample#current_animation.
Proof.
  eexists. split; [ vm_compute; reflexivity | ].
  repeat split. discriminate.
Qed.

(** C5 as stated fails: with [main] halted on the configuration error a
    tick still writes the current-values pane over the display. *)
Lemma tick_overwrites_config_error_pane :
  exists s s',
    configured_error inverted_limits /\
    exec inverted_limits (repeat fg 25) (boot inverted_limits) = Some (s, Spin) /\
    subseq config_error_pane (out s) /\
    step inverted_limits irq (s, Spin) = Some (s', Spin) /\
    out s' = out s
             ++ [lcd_goto 0; lcd_puts "Temperature: "; lcd_puts "0"; lcd_puts "C  ";
                 lcd_goto 0x40; lcd_puts "Humidity:    "; lcd_puts "0";
                 lcd_puts "%  "; matrix_animation LEDMATRIX_WARNING 1] /\
    out s' <> out s.
Proof.
  do 2 eexists.
  split; [ left; unfold configured_above, NULL; cbn; lia | ].
  split; [ vm_compute; reflexivity | ].
  split; [ vm_compute; tauto | ].
  split; [ vm_compute; reflexivity | ].
  split; [ reflexivity | ].
  cbn. discriminate.
Qed.

(** C6 as stated fails: with the lower temperature limit configured as 0
    degrees the accepted sample (-5, 40) is strictly below it, which the
    specification classifies Under, and [checkStats] leaves the temperature
    direction at Nominal. *)
Lemma zero_lower_limit_not_under :
  exists s',
    validates (present (-5, 40) init_state) = true /\
    run (checkStats zero_lower_limit (-5) 40) (present (-5, 40) init_state)
      = Returns tt s' /\
    classify (Some (temp_limit_min zero_lower_limit))
             (Some (temp_limit_max zero_lower_limit)) (-5) = Under /\
    s'#temp_exceeded_dir = direction_code Nominal /\
    s'#temp_exceeded_dir
      <> direction_code (classify (Some (temp_limit_min zero_lower_limit))
                                  (Some (temp_limit_max zero_lower_limit)) (-5)).
Proof.
  eexists.
  split; [ reflexivity | ].
  split; [ vm_compute; reflexivity | ].
  split; [ reflexivity | ].
  split; [ reflexivity | ].
  cbn. discriminate.
Qed.

(** ** The scenarios of the specification *)

(** Deltas of 5 are accepted, deltas of 6 rejected. *)
Example delta_boundary :
  validates (present (30, 40) after_first_sample) = true /\
  validates (present (20, 35) after_first_sample) = true /\
  validates (present (31, 40) after_first_sample) = false /\
  validates (present (25, 34) after_first_sample) = false.
Proof. repeat split. Qed.

(** Limits 20 and 30; samples 25, 29, 36 (rejected) and 32. *)
Example end_to_end :
  exists s,
    passes user_configuration
      [dht_ok 25 40; dht_ok 29 40; dht_ok 36 40; dht_ok 32 40] init_state = Some s /\
    s#temperature_max = 32 /\ s#temperature_min = 25 /\
    s#temperature_previous = 32 /\
    s#temp_exceeded_dir = direction_code Over /\
    s#current_animation = anim_warning.
Proof.
  eexists. split; [ vm_compute; reflexivity | ].
  repeat split.
Qed.

(** The step counter over seven ticks, alarm or not. *)
Example display_step_sequence :
  forall cfg s,
    s#display_step = 0 ->
    exists s1 s2 s3 s4 s5 s6,
      run (TIMER1_OVF_vect cfg) s = Returns tt s1 /\
      run (TIMER1_OVF_vect cfg) s1 = Returns tt s2 /\
      run (TIMER1_OVF_vect cfg) s2 = Returns tt s3 /\
      run (TIMER1_OVF_vect cfg) s3 = Returns tt s4 /\
      run (TIMER1_OVF_vect cfg) s4 = Returns tt s5 /\
      run (TIMER1_OVF_vect cfg) s5 = Returns tt s6 /\
      map (fun st => st#display_step) [s; s1; s2; s3; s4; s5; s6]
      = [0; 1; 2; 3; 4; 0; 1].
Proof.
  intros cfg s H0.
  destruct (TIMER1_OVF_vect_run cfg s) as (s1 & R1 & _ & _ & D1 & _).
  destruct (TIMER1_OVF_vect_run cfg s1) as (s2 & R2 & _ & _ & D2 & _).
  destruct (TIMER1_OVF_vect_run cfg s2) as (s3 & R3 & _ & _ & D3 & _).
  destruct (TIMER1_OVF_vect_run cfg s3) as (s4 & R4 & _ & _ & D4 & _).
  destruct (TIMER1_OVF_vect_run cfg s4) as (s5 & R5 & _ & _ & D5 & _).
  destruct (TIMER1_OVF_vect_run cfg s5) as (s6 & R6 & _ & _ & D6 & _).
  exists s1, s2, s3, s4, s5, s6.
  repeat (split; [ assumption | ]).
  cbn [map].
  rewrite H0 in D1. cbn in D1.
  rewrite D1 in D2. cbn in D2.
  rewrite D2 in D3. cbn in D3.
  rewrite D3 in D4. cbn in D4.
  rewrite D4 in D5. cbn in D5.
  rewrite D5 in D6. cbn in D6.
  rewrite H0, D1, D2, D3, D4, D5, D6. reflexivity.
Qed.

(** * Further properties *)

(** ** The display scheduler *)

Lemma wrap8_range z : in_int8 (wrap8 z).
Proof.
  unfold in_int8, wrap8.
  pose proof (Z.mod_pos_bound (z + 128) 256 ltac:(lia)). lia.
Qed.

Lemma scheduler_ok_init : scheduler_ok init_state.
Proof. unfold scheduler_ok. cbn. lia. Qed.

Ltac scheduler_update :=
  match goal with
  | H : selectors_ok _ /\ scheduler_ok _ |- selectors_ok _ /\ scheduler_ok _ =>
      let Hsel := fresh "Hsel" in
      let Hsch := fresh "Hsch" in
      destruct H as [Hsel Hsch]; split;
      [ selectors_update | exact Hsch ]
  end.

Lemma main_setup_keeps_scheduler cfg :
  keeps (fun s => selectors_ok s /\ scheduler_ok s) (main_setup cfg).
Proof.
  unfold main_setup, emit, assign. keeps_walk ltac:(idtac; scheduler_update).
Qed.

Lemma main_loop_body_keeps_scheduler cfg r :
  keeps (fun s => selectors_ok s /\ scheduler_ok s) (main_loop_body cfg r).
Proof.
  unfold main_loop_body, dht_gettemperaturehumidity, checkStats, isNewResultValid,
    check_limits, adjust_extremes, ifg, emit, assign, assign_expr.
  keeps_walk ltac:(idtac; try unfold dht_answer;
                   try destruct (dht_stored r) as [[? ?] | ];
                   scheduler_update).
Qed.

Lemma next_step ds :
  0 <= ds <= 4 ->
  (if wrap8 (ds + 1) >? 4 then 0 else wrap8 (ds + 1)) = (ds + 1) mod 5.
Proof.
  intros H.
  assert (C : ds = 0 \/ ds = 1 \/ ds = 2 \/ ds = 3 \/ ds = 4) by lia.
  destruct C as [-> | [-> | [-> | [-> | ->]]]]; reflexivity.
Qed.

Lemma tick_keeps_scheduler cfg s s' :
  selectors_ok s /\ scheduler_ok s ->
  run (TIMER1_OVF_vect cfg) s = Returns tt s' ->
  selectors_ok s' /\ scheduler_ok s'.
Proof.
  intros [Hsel [Hstep Hdone]] Hrun.
  split; [ exact (tick_keeps_selectors cfg s s' Hsel Hrun) | ].
  destruct (TIMER1_OVF_vect_run cfg s) as (s1 & Hrun1 & _ & _ & Hstep1 & Hdone1 & _).
  rewrite Hrun in Hrun1. injection Hrun1 as <-.
  unfold scheduler_ok.
  rewrite Hstep1, Hdone1, (next_step _ Hstep).
  split; [ | exact Hdone ].
  pose proof (Z.mod_pos_bound (s#display_step + 1) 5 ltac:(lia)). lia.
Qed.

(** On every schedule the machine runs on with selectors and scheduler in
    order. *)
Lemma reachable_scheduler_ok cfg sched :
  exists s k,
    exec cfg sched (boot cfg) = Some (s, k) /\ selectors_ok s /\ scheduler_ok s.
Proof.
  destruct (exec_keeps (fun s => selectors_ok s /\ scheduler_ok s) cfg
              (fun s s' H => tick_keeps_scheduler cfg s s' H)
              (main_loop_body_keeps_scheduler cfg) sched init_state (main_setup cfg)
              (conj selectors_ok_init scheduler_ok_init)
              (main_setup_keeps_scheduler cfg))
    as (s & k & Hexec & [Hsel Hsch] & _).
  eauto.
Qed.

(** X1.  The step counter runs 0, 1, 2, 3, 4, 0, ...: on every schedule it
    is between 0 and 4, and from such a value a tick takes it to the next
    one modulo 5, whatever the directions are. *)
Theorem display_step_cycles cfg :
  (forall sched,
      exists s k,
        exec cfg sched (boot cfg) = Some (s, k) /\ 0 <= s#display_step <= 4) /\
  (forall s,
      0 <= s#display_step <= 4 ->
      exists s',
        run (TIMER1_OVF_vect cfg) s = Returns tt s' /\
        s'#display_step = (s#display_step + 1) mod 5).
Proof.
  split.
  - intros sched.
    destruct (reachable_scheduler_ok cfg sched) as (s & k & Hexec & _ & Hstep & _).
    eauto.
  - intros s Hstep.
    destruct (TIMER1_OVF_vect_run cfg s) as (s' & Hrun & _ & _ & Hstep' & _).
    exists s'. split; [ exact Hrun | ].
    rewrite Hstep'. apply next_step. exact Hstep.
Qed.

(** X2.  The flag [last_animation_done] never holds an animation back: on
    every schedule it is 1 and the selector is 0 or 1, so each tick sends
    exactly one animation to the matrix, the check mark for selector 0 and
    the exclamation marks for selector 1, and leaves the flag at 1. *)
Theorem every_tick_animates cfg sched :
  exists s k s',
    exec cfg sched (boot cfg) = Some (s, k) /\
    s#last_animation_done = 1 /\
    run (TIMER1_OVF_vect cfg) s = Returns tt s' /\
    s'#last_animation_done = 1 /\
    out s' = out s ++ tick_pane cfg s
             ++ [matrix_animation
                   (if s#current_animation =? 0 then LEDMATRIX_CHECK
                    else LEDMATRIX_WARNING) 1].
Proof.
  destruct (reachable_scheduler_ok cfg sched)
    as (s & k & Hexec & (_ & _ & Hsel & _) & _ & Hdone).
  destruct (TIMER1_OVF_vect_run cfg s) as (s' & Hrun & Hout & _ & _ & Hdone' & _).
  exists s, k, s'.
  repeat (split; [ first [ assumption | congruence ] | ]).
  rewrite Hout. unfold tick_animation. rewrite Hdone. cbn.
  destruct Hsel as [-> | ->]; reflexivity.
Qed.

(** X3.  A tick never writes a variable of the foreground, puts
    [last_animation_done] back to what it was, leaves the interrupt flag
    alone and never reads the sensor: what it appends to the log goes to
    the display, the speaker or the matrix. *)
Theorem handler_frame cfg s :
  exists s' l,
    run (TIMER1_OVF_vect cfg) s = Returns tt s' /\
    (forall x, foreground_var x = true -> s'#x = s#x) /\
    s'#last_animation_done = s#last_animation_done /\
    interrupts s' = interrupts s /\
    out s' = out s ++ l /\
    Forall (fun e => pane_event e \/ exists rows, e = matrix_animation rows 1) l.
Proof.
  destruct (TIMER1_OVF_vect_run cfg s) as (s' & Hrun & Hout & Hmem & _ & Hdone & Hint).
  exists s', (tick_pane cfg s ++ tick_animation s).
  split; [ exact Hrun | ].
  split; [ exact Hmem | ].
  split; [ exact Hdone | ].
  split; [ exact Hint | ].
  split; [ exact Hout | ].
  apply Forall_app. split.
  - eapply Forall_impl; [ | apply tick_pane_events ]. cbn. auto.
  - unfold tick_animation.
    destruct (s#last_animation_done =? 1); constructor.
    + right. eexists. reflexivity.
    + constructor.
Qed.

(** X4.  A tick sounds the speaker exactly when it shows an alarm pane: at
    step 0 with the temperature direction 1 or -1, or at step 1 with the
    humidity direction 1 or -1; the tone then lasts 2000 ms. *)
Theorem tone_iff_alarm cfg s timeMs :
  In (speaker_tone timeMs) (tick_pane cfg s) <->
  timeMs = 2000 /\
  ((s#display_step = 0 /\ (s#temp_exceeded_dir = 1 \/ s#temp_exceeded_dir = -1)) \/
   (s#display_step = 1 /\ (s#hum_exceeded_dir = 1 \/ s#hum_exceeded_dir = -1))).
Proof.
  unfold tick_pane, isr_pane.
  destruct (Z.eqb_spec s#display_step 0) as [Hs0 | Hs0];
    destruct (Z.eqb_spec s#temp_exceeded_dir 1) as [Ht1 | Ht1];
    destruct (Z.eqb_spec s#temp_exceeded_dir (-1)) as [Ht2 | Ht2];
    try (rewrite Ht1 in * ); try (rewrite Ht2 in * ); try discriminate;
    cbn [andb orb];
    try (cbn; split;
         [ intros H; repeat (destruct H as [H | H]; try discriminate);
           [ injection H as <-; split; [ reflexivity | left; tauto ] | destruct H ]
         | intros [-> _]; repeat (first [ left; reflexivity | right ]) ]);
    destruct (Z.eqb_spec s#display_step 1) as [Hs1 | Hs1];
    destruct (Z.eqb_spec s#hum_exceeded_dir 1) as [Hh1 | Hh1];
    destruct (Z.eqb_spec s#hum_exceeded_dir (-1)) as [Hh2 | Hh2];
    try (rewrite Hh1 in * ); try (rewrite Hh2 in * ); try discriminate;
    cbn [andb orb];
    try (cbn; split;
         [ intros H; repeat (destruct H as [H | H]; try discriminate);
           [ injection H as <-; split; [ reflexivity | right; tauto ] | destruct H ]
         | intros [-> _]; repeat (first [ left; reflexivity | right ]) ]);
    destruct (s#display_step <=? 2);
    try destruct (s#display_step =? 3);
    try destruct (s#display_step =? 4);
    cbn;
    (split;
     [ intros H; repeat (destruct H as [H | H]; try discriminate); destruct H
     | intros [_ [[? [? | ?]] | [? [? | ?]]]]; lia ]).
Qed.

(** ** Between passes *)

(** Rewrite with a frame [H : forall x, x <> temperature -> x <> humidity ->
    _#x = _#x] at every other variable. *)
Ltac keep_others H :=
  rewrite ?(H temp_exceeded_dir), ?(H hum_exceeded_dir), ?(H current_animation),
    ?(H last_animation_done), ?(H test_frequency), ?(H display_step),
    ?(H temperature_max), ?(H temperature_min), ?(H temperature_previous),
    ?(H humidity_max), ?(H humidity_min), ?(H humidity_previous)
    by discriminate.

Lemma isNewResultValid_accepts s :
  validates s = true ->
  s#test_frequency = 0 \/ s#test_frequency = 1 ->
  exists s1,
    run isNewResultValid s = Returns 1 s1 /\
    s1#temperature_previous = wrap8 s#temperature /\
    s1#humidity_previous = wrap8 s#humidity /\
    s1#test_frequency = 1 /\
    (forall x, x <> temperature_previous -> x <> humidity_previous ->
               x <> test_frequency -> s1#x = s#x) /\
    out s1 = out s.
Proof.
  unfold validates, isNewResultValid, ifg. cbn.
  intros Hv [Htf | Htf]; rewrite Htf in *; cbn in *.
  - eexists. split; [ reflexivity | ]. cbn. rewrite Htf.
    repeat split; try frame_vars.
  - revert Hv. repeat (split_cond; cbn); try discriminate; intros _.
    eexists. split; [ reflexivity | ]. cbn.
    repeat split; try frame_vars. exact Htf.
Qed.

Lemma validates_far s :
  1 <= s#test_frequency ->
  5 < Z.abs (s#temperature - s#temperature_previous) \/
  5 < Z.abs (s#humidity - s#humidity_previous) ->
  validates s = false.
Proof.
  intros Htf Hfar. unfold validates.
  destruct (isNewResultValid_delta s Htf) as (v & s' & -> & Hv & Hiff & _).
  destruct Hv as [-> | ->]; [ reflexivity | ].
  destruct (proj1 Hiff eq_refl). lia.
Qed.

(** One pass keeps what holds between passes; the bootstrap count is 1
    from the first successful read on. *)
Lemma pass_keeps_settled cfg r s :
  settled cfg s ->
  exists s',
    run (main_loop_body cfg r) s = Returns tt s' /\
    settled cfg s' /\
    s'#test_frequency =
      (if (s#test_frequency =? 1) || successful (pass r) then 1 else 0).
Proof.
  intros (Ht & Hh & Htf & Hzero & Hone & Hcheck).
  assert (Ht0 : in_int8 (dht_answer r s)#temperature /\
                in_int8 (dht_answer r s)#humidity).
  { unfold dht_answer. destruct (dht_stored r) as [ [t h] | ]; cbn;
      auto using wrap8_range. }
  destruct Ht0 as [Ht0 Hh0].
  assert (Hkeep : forall x, x <> temperature -> x <> humidity ->
                            (dht_answer r s)#x = s#x).
  { unfold dht_answer. destruct (dht_stored r) as [ [t h] | ]; frame_vars. }
  unfold main_loop_body. rewrite run_bind. cbn [dht_gettemperaturehumidity run successful].
  destruct (Z.eqb_spec (dht_status r) (-1)) as [Hfail | Hok]; cbn [negb].
  - (* the read failed *)
    cbn -[dht_answer]. eexists. split; [ reflexivity | ].
    unfold settled, brackets, directions_current, anim_check in *.
    cbn -[dht_answer]. norm8.
    keep_others Hkeep.
    rewrite orb_false_r.
    repeat split; try tauto; try discriminate;
      try apply Ht0; try apply Hh0.
    destruct Htf as [-> | ->]; reflexivity.
  - cbn [run].
    set (s0 := dht_answer r s) in *.
    rewrite orb_true_r.
    destruct (validates s0) eqn:Hv.
    + (* accepted *)
      assert (Htf0 : s0#test_frequency = 0 \/ s0#test_frequency = 1).
      { rewrite Hkeep by discriminate. exact Htf. }
      destruct (isNewResultValid_accepts s0 Hv Htf0)
        as (s1 & Hrun1 & Htp & Hhp & Htf1 & Hmem1 & _).
      unfold checkStats. rewrite run_bind, Hrun1. cbn [Z.eqb Pos.eqb].
      rewrite run_bind.
      destruct (check_limits_run cfg s0#temperature s0#humidity s1)
        as (s2 & -> & Hdt & Hdh & Hca & Hmem2 & _).
      destruct (adjust_extremes_run s0#temperature s0#humidity s2)
        as (s3 & -> & Htmax & Htmin & Hhmax & Hhmin & Hmem3 & _).
      exists s3. split; [ reflexivity | ].
      rewrite (wrap8_id _ Ht0) in Htp, Htmax, Htmin.
      rewrite (wrap8_id _ Hh0) in Hhp, Hhmax, Hhmin.
      unfold settled, brackets, directions_current, anim_check.
      rewrite Htmax, Htmin, Hhmax, Hhmin.
      rewrite !(Hmem3 temperature), !(Hmem3 humidity), !(Hmem3 test_frequency),
        !(Hmem3 temp_exceeded_dir), !(Hmem3 hum_exceeded_dir),
        !(Hmem3 current_animation), !(Hmem3 temperature_previous),
        !(Hmem3 humidity_previous) by discriminate.
      rewrite !(Hmem2 temperature), !(Hmem2 humidity), !(Hmem2 test_frequency),
        !(Hmem2 temperature_previous), !(Hmem2 humidity_previous) by discriminate.
      rewrite !(Hmem1 temperature), !(Hmem1 humidity) by discriminate.
      rewrite Htf1, Htp, Hhp, Hca, Hdt, Hdh.
      split; [ | reflexivity ].
      split; [ exact Ht0 | ]. split; [ exact Hh0 | ].
      split; [ right; reflexivity | ].
      split; [ discriminate | ].
      split.
      * intros _. split; [ | split; reflexivity ].
        destruct (Z.ltb_spec s2#temperature_max s0#temperature);
          destruct (Z.gtb_spec s2#temperature_min s0#temperature);
          destruct (Z.ltb_spec s2#humidity_max s0#humidity);
          destruct (Z.gtb_spec s2#humidity_min s0#humidity); lia.
      * rewrite <- Hdt, <- Hdh.
        destruct (Z.eqb_spec s2#hum_exceeded_dir 0);
          destruct (Z.eqb_spec s2#temp_exceeded_dir 0); cbn;
          intros; try discriminate; auto.
    + (* rejected *)
      rewrite (checkStats_rejected cfg _ _ _ Hv).
      exists s0. split; [ reflexivity | ].
      assert (Hone0 : s0#test_frequency = 1).
      { destruct Htf as [Htf | Htf]; rewrite Hkeep by discriminate; [ | exact Htf ].
        exfalso.
        destruct (isNewResultValid_bootstrap s0) as (s1 & Hrun1 & _).
        { rewrite Hkeep by discriminate. lia. }
        unfold validates in Hv. rewrite Hrun1 in Hv. discriminate. }
      rewrite Hone0.
      rewrite Hkeep in Hone0 by discriminate.
      unfold settled, brackets, directions_current in *.
      keep_others Hkeep.
      split; [ | reflexivity ].
      split; [ exact Ht0 | ]. split; [ exact Hh0 | ].
      split; [ right; exact Hone0 | ].
      split; [ intros Hz; rewrite Hz in Hone0; discriminate | ].
      split; [ exact Hone | exact Hcheck ].
Qed.

Lemma tick_keeps_settled cfg s s' :
  settled cfg s ->
  run (TIMER1_OVF_vect cfg) s = Returns tt s' ->
  settled cfg s' /\ s'#test_frequency = s#test_frequency.
Proof.
  intros Hs Hrun.
  destruct (TIMER1_OVF_vect_run cfg s) as (s1 & Hrun1 & _ & Hmem & _).
  rewrite Hrun in Hrun1. injection Hrun1 as <-.
  unfold settled, brackets, directions_current in *.
  rewrite !Hmem by reflexivity. tauto.
Qed.

Lemma settled_init cfg : settled cfg init_state.
Proof.
  unfold settled, in_int8, anim_check. cbn.
  repeat split; try lia; try discriminate.
Qed.

Lemma rounds_settled cfg l :
  forall s,
    settled cfg s ->
    exists s',
      rounds cfg l s = Some s' /\
      settled cfg s' /\
      s'#test_frequency =
        (if (s#test_frequency =? 1) || existsb successful l then 1 else 0).
Proof.
  induction l as [ | rd l IH ]; intros s Hs.
  - exists s. split; [ reflexivity | ]. split; [ exact Hs | ].
    cbn. rewrite orb_false_r.
    destruct Hs as (_ & _ & [-> | ->] & _); reflexivity.
  - destruct rd as [ r | ]; cbn [rounds existsb].
    + destruct (pass_keeps_settled cfg r s Hs) as (s1 & -> & Hs1 & Htf1).
      destruct (IH s1 Hs1) as (s' & Hrounds & Hs' & Htf').
      exists s'. split; [ exact Hrounds | ]. split; [ exact Hs' | ].
      rewrite Htf', Htf1, orb_assoc.
      destruct ((s#test_frequency =? 1) || successful (pass r)); reflexivity.
    + destruct (TIMER1_OVF_vect_run cfg s) as (s1 & Hrun & _).
      rewrite Hrun.
      destruct (tick_keeps_settled cfg s s1 Hs Hrun) as [Hs1 Htf1].
      destruct (IH s1 Hs1) as (s' & Hrounds & Hs' & Htf').
      exists s'. split; [ exact Hrounds | ]. split; [ exact Hs' | ].
      rewrite Htf', Htf1. reflexivity.
Qed.

(** X5.  The bootstrap count is 0 until the first pass whose sensor read
    succeeds and 1 from then on, whatever failed reads and ticks come
    before or after: the first sample that is read is always accepted. *)
Theorem bootstrap_at_first_successful_read cfg l :
  exists s,
    rounds cfg l init_state = Some s /\
    s#test_frequency = (if existsb successful l then 1 else 0).
Proof.
  destruct (rounds_settled cfg l init_state (settled_init cfg)) as (s & Hr & _ & Htf).
  exists s. split; [ exact Hr | exact Htf ].
Qed.

(** X6.  Between passes, once a sensor read has succeeded, the stored
    extremes lie on either side of the last accepted sample: minimum <=
    last accepted <= maximum, for temperature and for humidity. *)
Theorem extremes_bracket_last_accepted cfg l :
  existsb successful l = true ->
  exists s, rounds cfg l init_state = Some s /\ brackets s.
Proof.
  intros Hl.
  destruct (rounds_settled cfg l init_state (settled_init cfg))
    as (s & Hr & (_ & _ & _ & _ & Hone & _) & Htf).
  exists s. split; [ exact Hr | ].
  rewrite Hl in Htf. apply (Hone Htf).
Qed.

(** X7.  Between passes the two directions are the classification of the
    last accepted sample, and 0 while no read has succeeded; and the Check
    animation is selected only while both directions are 0. *)
Theorem directions_follow_last_accepted cfg l :
  exists s,
    rounds cfg l init_state = Some s /\
    (existsb successful l = true -> directions_current cfg s) /\
    (existsb successful l = false ->
     s#temp_exceeded_dir = 0 /\ s#hum_exceeded_dir = 0) /\
    (s#current_animation = anim_check ->
     s#temp_exceeded_dir = 0 /\ s#hum_exceeded_dir = 0).
Proof.
  destruct (rounds_settled cfg l init_state (settled_init cfg))
    as (s & Hr & (_ & _ & _ & Hzero & Hone & Hcheck) & Htf).
  exists s. split; [ exact Hr | ].
  split; [ | split; [ | exact Hcheck ] ].
  - intros Hl. rewrite Hl in Htf. apply (Hone Htf).
  - intros Hl. rewrite Hl in Htf. apply (Hzero Htf).
Qed.

Lemma far_pass_rejected cfg r s :
  s#test_frequency = 1 ->
  far_from_baseline s r ->
  exists s',
    run (main_loop_body cfg r) s = Returns tt s' /\
    (forall x, x <> temperature -> x <> humidity -> s'#x = s#x).
Proof.
  intros Htf (Hok & t & h & Hstored & Ht & Hh & Hfar).
  assert (Hv : validates (dht_answer r s) = false).
  { apply validates_far; unfold dht_answer; rewrite Hstored; cbn.
    - lia.
    - rewrite (wrap8_id t Ht), (wrap8_id h Hh). exact Hfar. }
  unfold main_loop_body. rewrite run_bind. cbn [dht_gettemperaturehumidity run].
  destruct (Z.eqb_spec (dht_status r) (-1)) as [ | _ ]; [ contradiction | ].
  cbn [negb run].
  rewrite (checkStats_rejected cfg _ _ _ Hv).
  exists (dht_answer r s). split; [ reflexivity | ].
  unfold dht_answer. rewrite Hstored. frame_vars.
Qed.

(** X8.  A rejection never moves the Validator's baseline.  So after a
    sample was accepted, a run of samples that are each further than 5 from
    it is rejected to the last, however long and however steady: only the
    globals [temperature] and [humidity] change. *)
Theorem far_samples_all_rejected cfg rs s :
  s#test_frequency = 1 ->
  Forall (far_from_baseline s) rs ->
  exists s',
    passes cfg rs s = Some s' /\
    (forall x, x <> temperature -> x <> humidity -> s'#x = s#x).
Proof.
  intros Htf Hfar.
  enough (H : forall s0,
             (forall x, x <> temperature -> x <> humidity -> s0#x = s#x) ->
             exists s',
               passes cfg rs s0 = Some s' /\
               (forall x, x <> temperature -> x <> humidity -> s'#x = s#x)).
  { apply H. reflexivity. }
  induction Hfar as [ | r rs Hr Hrs IH ]; intros s0 Hs0.
  - exists s0. split; [ reflexivity | exact Hs0 ].
  - assert (Hr0 : far_from_baseline s0 r).
    { destruct Hr as (Hok & t & h & Hfar). split; [ exact Hok | ].
      exists t, h. rewrite !Hs0 by discriminate. exact Hfar. }
    assert (Htf0 : s0#test_frequency = 1) by (rewrite Hs0 by discriminate; exact Htf).
    destruct (far_pass_rejected cfg r s0 Htf0 Hr0) as (s1 & Hrun & Hs1).
    cbn [passes]. rewrite Hrun.
    apply IH. intros x Hx1 Hx2. rewrite Hs1, Hs0 by assumption. reflexivity.
Qed.

(** X9.  A rejected sample is still shown: the sensor driver has stored it
    in the globals the handler prints, so the tick of step 2 writes the
    rejected values to the display as the current ones, while the
    Validator's baseline stays where it was. *)
Theorem rejected_sample_is_displayed cfg r t h s :
  dht_status r <> -1 ->
  dht_stored r = Some (t, h) ->
  in_int8 t -> in_int8 h ->
  validates (dht_answer r s) = false ->
  s#display_step = 2 ->
  exists s' s'',
    run (main_loop_body cfg r) s = Returns tt s' /\
    s'#temperature_previous = s#temperature_previous /\
    s'#humidity_previous = s#humidity_previous /\
    run (TIMER1_OVF_vect cfg) s' = Returns tt s'' /\
    out s'' = out s' ++ pane (printTempHum_Current t h) ++ tick_animation s'.
Proof.
  intros Hok Hstored Ht Hh Hv Hstep.
  unfold main_loop_body. rewrite run_bind. cbn [dht_gettemperaturehumidity run].
  destruct (Z.eqb_spec (dht_status r) (-1)) as [ | _ ]; [ contradiction | ].
  cbn [negb run].
  rewrite (checkStats_rejected cfg _ _ _ Hv).
  destruct (TIMER1_OVF_vect_run cfg (dht_answer r s)) as (s'' & Hrun & Hout & _).
  exists (dht_answer r s), s''.
  split; [ reflexivity | ].
  assert (Hmem : (dht_answer r s)#temperature = t /\ (dht_answer r s)#humidity = h /\
                 (dht_answer r s)#display_step = 2 /\
                 (dht_answer r s)#temperature_previous = s#temperature_previous /\
                 (dht_answer r s)#humidity_previous = s#humidity_previous).
  { unfold dht_answer. rewrite Hstored. cbn.
    rewrite (wrap8_id t Ht), (wrap8_id h Hh). auto. }
  destruct Hmem as (Et & Eh & Estep & Etp & Ehp).
  split; [ exact Etp | ]. split; [ exact Ehp | ]. split; [ exact Hrun | ].
  rewrite Hout. f_equal. f_equal.
  unfold tick_pane, isr_pane. rewrite Estep, Et, Eh. reflexivity.
Qed.

(** ** The limits and their sentinel *)

(** What a configuration error does to the machine. *)
Lemma config_error_machine cfg sched :
  config_error cfg ->
  exists s k,
    exec cfg sched (boot cfg) = Some (s, k) /\
    ~ In dht_read (out s) /\
    ((25 <= count_fg sched)%nat ->
     k = Spin /\ subseq config_error_pane (out s)).
Proof.
  intros Hcfg.
  destruct (main_setup_halts cfg Hcfg) as [Hsteps Hlog].
  destruct (exec_halting untouched cfg (tick_keeps_untouched cfg) sched
              init_state (main_setup cfg) 25%nat [] config_error_pane
              untouched_init (main_setup_keeps_untouched cfg Hcfg)
              Hsteps I Hlog)
    as (s & k & done & todo & Hexec & [Hmem Hread] & Hn & Hsplit & Hdone & Htodo).
  exists s, k.
  split; [ exact Hexec | ]. split; [ exact Hread | ].
  intros Hcount.
  replace (25 - count_fg sched)%nat with 0%nat in Hn by lia.
  apply steps_to_spin_zero in Hn. subst k.
  apply will_log_spin in Htodo. subst todo.
  rewrite app_nil_r in Hsplit. cbn in Hsplit. subst done.
  split; [ reflexivity | exact Hdone ].
Qed.

(** X10.  A lower limit above 0 whose upper limit is left at [NULL] is a
    configuration error: [NULL] is 0 in the start-up comparison, so [main]
    writes the error text and halts without ever reading the sensor. *)
Theorem lower_limit_alone_halts cfg sched :
  (temp_limit_max cfg = NULL /\ 0 < temp_limit_min cfg) \/
  (hum_limit_max cfg = NULL /\ 0 < hum_limit_min cfg) ->
  exists s k,
    exec cfg sched (boot cfg) = Some (s, k) /\
    ~ In dht_read (out s) /\
    ((25 <= count_fg sched)%nat ->
     k = Spin /\ subseq config_error_pane (out s)).
Proof.
  intros Hcfg. apply config_error_machine.
  unfold config_error, NULL in *. lia.
Qed.

Lemma direction_code_inj d d' : direction_code d = direction_code d' -> d = d'.
Proof. destruct d, d'; cbn; intros H; try reflexivity; discriminate. Qed.

(** X11.  A limit of 0 is no limit: with an upper limit of 0 no accepted
    sample is ever Over, with a lower limit of 0 none is ever Under, so a
    lower temperature limit of 0 lets every negative temperature pass. *)
Theorem zero_limit_is_no_limit cfg t h s :
  validates s = true ->
  exists s',
    run (checkStats cfg t h) s = Returns tt s' /\
    (temp_limit_max cfg = 0 -> s'#temp_exceeded_dir <> 1) /\
    (temp_limit_min cfg = 0 -> s'#temp_exceeded_dir <> -1) /\
    (hum_limit_max cfg = 0 -> s'#hum_exceeded_dir <> 1) /\
    (hum_limit_min cfg = 0 -> s'#hum_exceeded_dir <> -1).
Proof.
  intros Hv.
  destruct (checkStats_accepted_run cfg t h s Hv) as (s' & Hrun & Ht & Hh & _).
  exists s'. split; [ exact Hrun | ].
  rewrite Ht, Hh.
  repeat split; intros -> Hd.
  - apply (direction_code_inj _ Over) in Hd. revert Hd. apply classify_unset_upper.
  - apply (direction_code_inj _ Under) in Hd. revert Hd. apply classify_unset_lower.
  - apply (direction_code_inj _ Over) in Hd. revert Hd. apply classify_unset_upper.
  - apply (direction_code_inj _ Under) in Hd. revert Hd. apply classify_unset_lower.
Qed.

(** ** The text buffers *)

Lemma z_range_complete n len :
  forall start, start <= n < start + Z.of_nat len -> In n (z_range start len).
Proof.
  induction len as [ | len IH ]; intros start Hn; [ lia | ].
  cbn [z_range]. destruct (Z.eq_dec start n) as [-> | Hne].
  - left. reflexivity.
  - right. apply IH. lia.
Qed.

Lemma int16_values_complete n :
  -32768 <= n <= 32767 -> In n int16_values.
Proof.
  intros Hn. apply z_range_complete. lia.
Qed.

Lemma int16_texts_short :
  forallb (fun n => (String.length (sprintf_d n) <=? 6)%nat) int16_values = true.
Proof. vm_compute. reflexivity. Qed.

(** X12.  The decimal text of every 16-bit [int] has at most 6 characters:
    with its terminating NUL it fits the 8-byte buffers of the three print
    functions and the 12-byte buffer of [printWarning]. *)
Theorem decimal_text_fits_buffer n :
  -32768 <= n <= 32767 ->
  (String.length (sprintf_d n) + 1 <= 8)%nat.
Proof.
  intros Hn.
  pose proof (proj1 (forallb_forall _ _) int16_texts_short n
                (int16_values_complete n Hn)) as H.
  apply Nat.leb_le in H. lia.
Qed.

(** ** Loops *)

Lemma for_loop_app {S : Type} (l l' : list Z) (body : Z -> S -> S) (s : S) :
  for_loop (l ++ l') body s = for_loop l' body (for_loop l body s).
Proof. unfold for_loop. apply fold_left_app. Qed.

Lemma count_up_succ n :
  0 <= n -> count_up (n + 1) = count_up n ++ [n].
Proof.
  intros Hn. unfold count_up.
  replace (Z.to_nat (n + 1)) with (S (Z.to_nat n)) by lia.
  rewrite seq_S, map_app. cbn. rewrite Z2Nat.id by lia. reflexivity.
Qed.

Lemma count_up_length n : List.length (count_up n) = Z.to_nat n.
Proof. unfold count_up. rewrite length_map, length_seq. reflexivity. Qed.

(** A loop whose body ignores the index keeps what each run of the body
    keeps, and adds up what each run adds. *)
Lemma for_loop_invariant {S : Type} (P : nat -> S -> Prop) (f : S -> S) :
  (forall k s, P k s -> P (Datatypes.S k) (f s)) ->
  forall l s, P O s -> P (List.length l) (for_loop l (fun _ => f) s).
Proof.
  intros Hf l.
  induction l as [ | i l IH ] using rev_ind; intros s Hs.
  - exact Hs.
  - rewrite for_loop_app, length_app. cbn.
    replace (List.length l + 1)%nat with (Datatypes.S (List.length l)) by lia.
    apply Hf, IH, Hs.
Qed.

(** ** The LED matrix, frame by frame *)

Lemma shift_left_byte_eq v : shift_left_byte v = (v * 2) mod 256.
Proof.
  unfold shift_left_byte.
  rewrite Z.shiftl_mul_pow2 by lia.
  rewrite Z.mul_mod_idemp_l by lia. reflexivity.
Qed.

Lemma shift_left_byte_iter k v :
  Nat.iter (Datatypes.S k) shift_left_byte v
  = (v * 2 ^ Z.of_nat (Datatypes.S k)) mod 256.
Proof.
  induction k as [ | k IH ].
  - rewrite Nat.iter_succ. cbn [Nat.iter nat_rect].
    rewrite shift_left_byte_eq. reflexivity.
  - rewrite Nat.iter_succ, IH, shift_left_byte_eq.
    rewrite Z.mul_mod_idemp_l by lia.
    replace (Z.of_nat (Datatypes.S (Datatypes.S k)))
      with (Z.of_nat (Datatypes.S k) + 1) by lia.
    rewrite Z.pow_add_r by lia. f_equal. ring.
Qed.

Lemma animate_as_iteration row_list repetitions m :
  0 <= repetitions <= 255 ->
  Frame.matrixDisplay_animate row_list repetitions m
  = for_loop (count_up repetitions) (fun _ => one_repetition row_list) m.
Proof.
  intros Hreps.
  assert (E : Frame.matrixDisplay_animate row_list repetitions m
              = for_loop (count_up (repetitions mod 256))
                  (fun _ => one_repetition row_list) m) by reflexivity.
  rewrite E, Z.mod_small by lia. reflexivity.
Qed.

Lemma one_repetition_digit row_list m row :
  0 <= row < 8 ->
  Frame.digit_of (one_repetition row_list m) 0 row
  = Nat.iter 8 shift_left_byte ((Z.shiftr (Frame.at_row row_list row) 0) mod 256).
Proof.
  intros Hrow.
  assert (C : row = 0 \/ row = 1 \/ row = 2 \/ row = 3 \/
              row = 4 \/ row = 5 \/ row = 6 \/ row = 7) by lia.
  destruct C as [-> | [-> | [-> | [-> | [-> | [-> | [-> | ->]]]]]]]; reflexivity.
Qed.

Lemma one_repetition_blank row_list m row :
  0 <= row < 8 ->
  Frame.digit_of (one_repetition row_list m) 0 row = 0.
Proof.
  intros Hrow. rewrite (one_repetition_digit row_list m row Hrow).
  rewrite shift_left_byte_iter.
  change (2 ^ Z.of_nat 8) with (1 * 256).
  rewrite Z.mul_assoc. apply Z.mod_mul. lia.
Qed.

(** X13.  However the matrix stood and whatever the bitmap, an animation
    of at least one repetition, and of at most the 255 a [uint8_t] holds,
    leaves all eight rows of the matrix dark: the image is on the matrix
    only while the handler runs. *)
Theorem animation_ends_blank row_list repetitions m row :
  0 < repetitions <= 255 ->
  0 <= row < 8 ->
  Frame.digit_of (Frame.matrixDisplay_animate row_list repetitions m) 0 row = 0.
Proof.
  intros Hreps Hrow.
  rewrite animate_as_iteration by lia.
  replace repetitions with ((repetitions - 1) + 1) by lia.
  rewrite count_up_succ by lia.
  rewrite for_loop_app. cbn [for_loop fold_left].
  apply one_repetition_blank. exact Hrow.
Qed.

Lemma one_repetition_time row_list m :
  Frame.elapsed_ms (one_repetition row_list m) = Frame.elapsed_ms m + 1920 /\
  List.length (Frame.shown (one_repetition row_list m))
  = (List.length (Frame.shown m) + 16)%nat.
Proof.
  split.
  - assert (E : Frame.elapsed_ms (one_repetition row_list m)
                = Frame.elapsed_ms m + 120 + 120 + 120 + 120 + 120 + 120 + 120 + 120
                  + 120 + 120 + 120 + 120 + 120 + 120 + 120 + 120) by reflexivity.
    rewrite E. lia.
  - assert (E : exists f1 f2 f3 f4 f5 f6 f7 f8 g1 g2 g3 g4 g5 g6 g7 g8,
               Frame.shown (one_repetition row_list m)
               = (((((((((((((((Frame.shown m ++ [f1]) ++ [f2]) ++ [f3]) ++ [f4])
                   ++ [f5]) ++ [f6]) ++ [f7]) ++ [f8]) ++ [g1]) ++ [g2]) ++ [g3])
                   ++ [g4]) ++ [g5]) ++ [g6]) ++ [g7]) ++ [g8]).
    { do 16 eexists. reflexivity. }
    destruct E as (f1 & f2 & f3 & f4 & f5 & f6 & f7 & f8 &
                   g1 & g2 & g3 & g4 & g5 & g6 & g7 & g8 & E).
    rewrite E, !length_app. cbn [List.length]. lia.
Qed.

(** X14.  An animation of [repetitions] repetitions, a number from 0 to
    255, shows 16 frames per repetition and waits 120 ms on each: 1920 ms
    per repetition. *)
Theorem animation_frames_and_delay row_list repetitions m :
  0 <= repetitions <= 255 ->
  Frame.elapsed_ms (Frame.matrixDisplay_animate row_list repetitions m)
  = Frame.elapsed_ms m + 1920 * repetitions /\
  List.length (Frame.shown (Frame.matrixDisplay_animate row_list repetitions m))
  = (List.length (Frame.shown m) + 16 * Z.to_nat repetitions)%nat.
Proof.
  intros Hreps. rewrite animate_as_iteration by exact Hreps.
  pose proof (for_loop_invariant
                (fun k m' =>
                   Frame.elapsed_ms m' = Frame.elapsed_ms m + 1920 * Z.of_nat k /\
                   List.length (Frame.shown m')
                   = (List.length (Frame.shown m) + 16 * k)%nat)
                (one_repetition row_list)) as H.
  rewrite <- (count_up_length repetitions).
  replace repetitions with (Z.of_nat (List.length (count_up repetitions))) at 2
    by (rewrite count_up_length; lia).
  apply H.
  - intros k m' [Ht Hn].
    destruct (one_repetition_time row_list m') as [Ht' Hn'].
    rewrite Ht', Hn', Ht, Hn. split; lia.
  - split; lia.
Qed.

Lemma shiftr_byte b column :
  0 <= b < 256 -> 0 <= column -> (Z.shiftr b column) mod 256 = Z.shiftr b column.
Proof.
  intros Hb Hc. apply Z.mod_small.
  rewrite Z.shiftr_div_pow2 by lia.
  assert (0 < 2 ^ column) by (apply Z.pow_pos_nonneg; lia).
  split.
  - apply Z.div_pos; lia.
  - apply Z.le_lt_trans with b; [ | lia ].
    apply Z.div_le_upper_bound; nia.
Qed.

Lemma shifted_in_frame row_list column :
  Forall (fun b => 0 <= b < 256) row_list -> 0 <= column ->
  map (fun b => (Z.shiftr b column) mod 256) row_list
  = map (fun b => Z.shiftr b column) row_list.
Proof.
  intros Hb Hc. apply map_ext_in. intros b Hin.
  rewrite Forall_forall in Hb. apply shiftr_byte; auto.
Qed.

Lemma shifted_out_frame row_list k :
  Forall (fun b => 0 <= b < 256) row_list ->
  map (fun b => Nat.iter (Datatypes.S k) shift_left_byte ((Z.shiftr b 0) mod 256)) row_list
  = map (fun b => (Z.shiftl b (Z.of_nat (Datatypes.S k))) mod 256) row_list.
Proof.
  intros Hb. apply map_ext_in. intros b Hin.
  rewrite Forall_forall in Hb.
  rewrite shift_left_byte_iter, Z.shiftr_0_r.
  rewrite (Z.mod_small b 256) by auto.
  rewrite Z.shiftl_mul_pow2 by lia. reflexivity.
Qed.

Lemma one_repetition_frames row_list m :
  Frame.bitmap row_list ->
  Frame.shown (one_repetition row_list m) = Frame.shown m ++ frames_of row_list.
Proof.
  intros [Hlen Hbytes].
  destruct row_list as [ | b0 [ | b1 [ | b2 [ | b3 [ | b4 [ | b5 [ | b6 [ | b7 [ | ? ? ]]]]]]]]];
    try discriminate.
  set (rl := [b0; b1; b2; b3; b4; b5; b6; b7]) in *.
  pose (fin := fun column => map (fun b => (Z.shiftr b column) mod 256) rl).
  pose (gout := fun k =>
                  map (fun b => Nat.iter k shift_left_byte ((Z.shiftr b 0) mod 256)) rl).
  assert (E : Frame.shown (one_repetition rl m)
              = (((((((((((((((Frame.shown m ++ [fin 7]) ++ [fin 6]) ++ [fin 5])
                  ++ [fin 4]) ++ [fin 3]) ++ [fin 2]) ++ [fin 1]) ++ [fin 0])
                  ++ [gout 1%nat]) ++ [gout 2%nat]) ++ [gout 3%nat]) ++ [gout 4%nat])
                  ++ [gout 5%nat]) ++ [gout 6%nat]) ++ [gout 7%nat]) ++ [gout 8%nat])
    by reflexivity.
  rewrite E, <- !app_assoc. cbn [app]. f_equal.
  unfold frames_of, fin, gout. cbn [map app].
  rewrite !(shifted_in_frame rl) by (assumption || lia).
  rewrite !(shifted_out_frame rl) by assumption.
  reflexivity.
Qed.

Lemma concat_repeat_snoc {A : Type} (F : list A) k :
  List.concat (repeat F k) ++ F = List.concat (repeat F (Datatypes.S k)).
Proof.
  induction k as [ | k IH ]; cbn [repeat List.concat].
  - rewrite app_nil_r. reflexivity.
  - rewrite <- app_assoc, IH. reflexivity.
Qed.

(** X15.  Each of the [repetitions] repetitions, a number from 0 to 255,
    of the animation of a bitmap shows the same sixteen frames: the rows
    shifted right by 7, 6, ..., 0 columns, then shifted left by 1, 2, ...,
    8 columns.  The eighth frame is the bitmap itself and the sixteenth is
    dark. *)
Theorem animation_frames row_list repetitions m :
  Frame.bitmap row_list ->
  0 <= repetitions <= 255 ->
  Frame.shown (Frame.matrixDisplay_animate row_list repetitions m)
  = Frame.shown m ++ List.concat (repeat (frames_of row_list) (Z.to_nat repetitions)) /\
  nth 7 (frames_of row_list) [] = row_list /\
  nth 15 (frames_of row_list) [] = [0; 0; 0; 0; 0; 0; 0; 0].
Proof.
  intros Hbitmap Hreps. split; [ | split ].
  - rewrite animate_as_iteration by exact Hreps.
    rewrite <- (count_up_length repetitions).
    apply (for_loop_invariant
             (fun k m' =>
                Frame.shown m' = Frame.shown m ++ List.concat (repeat (frames_of row_list) k))
             (one_repetition row_list)).
    + intros k m' Hm'.
      rewrite (one_repetition_frames row_list m' Hbitmap), Hm', <- app_assoc.
      rewrite concat_repeat_snoc. reflexivity.
    + cbn. rewrite app_nil_r. reflexivity.
  - unfold frames_of. cbn [map app nth].
    rewrite <- (map_id row_list) at 2. apply map_ext. intros b. apply Z.shiftr_0_r.
  - destruct Hbitmap as [Hlen _].
    destruct row_list as [ | b0 [ | b1 [ | b2 [ | b3 [ | b4 [ | b5 [ | b6 [ | b7 [ | ? ? ]]]]]]]]];
      try discriminate.
    unfold frames_of. cbn [map app nth].
    rewrite !Z.shiftl_mul_pow2 by lia.
    change (2 ^ 8) with 256. rewrite !Z.mod_mul by lia. reflexivity.
Qed.

(** ** The speaker pin, toggle by toggle *)

Lemma register_bit n : 0 <= n < 8 ->
  n = 0 \/ n = 1 \/ n = 2 \/ n = 3 \/ n = 4 \/ n = 5 \/ n = 6 \/ n = 7.
Proof. lia. Qed.

Lemma set_pin_bits sp n :
  0 <= n < 8 ->
  Z.testbit (Tone.PORTD (Tone.set_pin sp)) n
  = if n =? Tone.SPEAKER_PIN then true else Z.testbit (Tone.PORTD sp) n.
Proof.
  intros Hn. unfold Tone.set_pin, Tone.SPEAKER_PIN. cbn [Tone.PORTD].
  change 256 with (2 ^ 8). rewrite Z.mod_pow2_bits_low by lia.
  rewrite Z.lor_spec. change (Z.shiftl 1 5) with 32.
  destruct (register_bit n Hn) as [-> | [-> | [-> | [-> | [-> | [-> | [-> | ->]]]]]]];
    cbn; rewrite ?orb_false_r, ?orb_true_r; reflexivity.
Qed.

Lemma clear_pin_bits sp n :
  0 <= n < 8 ->
  Z.testbit (Tone.PORTD (Tone.clear_pin sp)) n
  = if n =? Tone.SPEAKER_PIN then false else Z.testbit (Tone.PORTD sp) n.
Proof.
  intros Hn. unfold Tone.clear_pin, Tone.SPEAKER_PIN. cbn [Tone.PORTD].
  change 256 with (2 ^ 8). rewrite Z.mod_pow2_bits_low by lia.
  rewrite Z.land_spec. change (Z.lnot (Z.shiftl 1 5)) with (-33).
  destruct (register_bit n Hn) as [-> | [-> | [-> | [-> | [-> | [-> | [-> | ->]]]]]]];
    cbn; rewrite ?andb_false_r, ?andb_true_r; reflexivity.
Qed.

Lemma pin_writes_frame l :
  forall sp,
    Tone.elapsed_us
      (for_loop l (fun i sp => if 100 >? i then Tone.set_pin sp else Tone.clear_pin sp) sp)
    = Tone.elapsed_us sp /\
    (forall n, 0 <= n < 8 -> n <> Tone.SPEAKER_PIN ->
       Z.testbit
         (Tone.PORTD
            (for_loop l (fun i sp => if 100 >? i then Tone.set_pin sp else Tone.clear_pin sp) sp))
         n
       = Z.testbit (Tone.PORTD sp) n).
Proof.
  induction l as [ | i l IH ]; intros sp.
  - split; reflexivity.
  - unfold for_loop in *. cbn [fold_left].
    destruct (IH (if 100 >? i then Tone.set_pin sp else Tone.clear_pin sp)) as [Ht Hb].
    split.
    + rewrite Ht. destruct (100 >? i); reflexivity.
    + intros n Hn Hne. rewrite (Hb n Hn Hne).
      destruct (100 >? i); [ rewrite set_pin_bits | rewrite clear_pin_bits ];
        try assumption;
        destruct (Z.eqb_spec n Tone.SPEAKER_PIN); congruence.
Qed.

Lemma tone_cycle_effect sp :
  Tone.elapsed_us (tone_cycle sp) = Tone.elapsed_us sp + 500 /\
  Z.testbit (Tone.PORTD (tone_cycle sp)) Tone.SPEAKER_PIN = false /\
  (forall n, 0 <= n < 8 -> n <> Tone.SPEAKER_PIN ->
     Z.testbit (Tone.PORTD (tone_cycle sp)) n = Z.testbit (Tone.PORTD sp) n).
Proof.
  unfold tone_cycle. cbn [Tone.elapsed_us Tone.PORTD Tone._delay_us].
  split; [ | split ].
  - rewrite (proj1 (pin_writes_frame _ sp)). reflexivity.
  - change 255 with (254 + 1). rewrite count_up_succ by lia.
    rewrite for_loop_app. cbn [for_loop fold_left].
    change (100 >? 254) with false. cbv iota.
    rewrite clear_pin_bits by (unfold Tone.SPEAKER_PIN; lia).
    rewrite Z.eqb_refl. reflexivity.
  - apply (proj2 (pin_writes_frame _ sp)).
Qed.

Lemma warningSounds_cycles timeMs sp :
  Tone.in_int16 (timeMs * 2) = true ->
  Tone.warningSounds timeMs sp
  = Some (for_loop (count_up ((timeMs * 2) mod 65536)) (fun _ => tone_cycle) sp).
Proof.
  intros Hfit. unfold Tone.warningSounds. cbv zeta. rewrite Hfit. reflexivity.
Qed.

Lemma tone_cycles_effect cycles sp :
  0 <= cycles ->
  Tone.elapsed_us (for_loop (count_up cycles) (fun _ => tone_cycle) sp)
  = Tone.elapsed_us sp + 500 * cycles /\
  (0 < cycles ->
   Z.testbit (Tone.PORTD (for_loop (count_up cycles) (fun _ => tone_cycle) sp))
     Tone.SPEAKER_PIN = false) /\
  (forall n, 0 <= n < 8 -> n <> Tone.SPEAKER_PIN ->
     Z.testbit (Tone.PORTD (for_loop (count_up cycles) (fun _ => tone_cycle) sp)) n
     = Z.testbit (Tone.PORTD sp) n).
Proof.
  intros Hc.
  pose proof (for_loop_invariant
                (fun k sp' =>
                   Tone.elapsed_us sp' = Tone.elapsed_us sp + 500 * Z.of_nat k /\
                   ((0 < k)%nat ->
                    Z.testbit (Tone.PORTD sp') Tone.SPEAKER_PIN = false) /\
                   (forall n, 0 <= n < 8 -> n <> Tone.SPEAKER_PIN ->
                      Z.testbit (Tone.PORTD sp') n = Z.testbit (Tone.PORTD sp) n))
                tone_cycle) as H.
  specialize (H ltac:(
    intros k sp' (Ht & _ & Hb);
    destruct (tone_cycle_effect sp') as (Ht' & Hpin & Hb');
    split; [ rewrite Ht', Ht; lia | ];
    split; [ intros _; exact Hpin | ];
    intros n Hn Hne; rewrite (Hb' n Hn Hne); apply Hb; assumption)).
  specialize (H (count_up cycles) sp).
  rewrite count_up_length in H.
  destruct H as (Ht & Hpin & Hb).
  { split; [ lia | ]. split; [ lia | ]. reflexivity. }
  rewrite Z2Nat.id in Ht by lia.
  split; [ exact Ht | ]. split; [ | exact Hb ].
  intros Hpos. apply Hpin. lia.
Qed.

(** X16.  For a duration from 0 to 16383 ms [warningSounds] makes two
    cycles per millisecond and waits 500 us in each, [timeMs] ms in all;
    it leaves the speaker pin low (if it made a cycle at all) and never
    changes another bit of the port. *)
Theorem tone_duration_and_pin timeMs sp :
  0 <= timeMs <= 16383 ->
  exists sp',
    Tone.warningSounds timeMs sp = Some sp' /\
    Tone.elapsed_us sp' = Tone.elapsed_us sp + 1000 * timeMs /\
    (0 < timeMs -> Z.testbit (Tone.PORTD sp') Tone.SPEAKER_PIN = false) /\
    (forall n, 0 <= n < 8 -> n <> Tone.SPEAKER_PIN ->
       Z.testbit (Tone.PORTD sp') n = Z.testbit (Tone.PORTD sp) n).
Proof.
  intros Hms.
  rewrite warningSounds_cycles by (unfold Tone.in_int16; lia).
  rewrite Z.mod_small by lia.
  destruct (tone_cycles_effect (timeMs * 2) sp ltac:(lia)) as (Ht & Hpin & Hb).
  eexists. split; [ reflexivity | ].
  split; [ rewrite Ht; lia | ].
  split; [ intros Hpos; apply Hpin; lia | exact Hb ].
Qed.

(** X17.  A negative duration does not return at once: the loop bound is
    compared as an unsigned 16-bit number, so for [timeMs] from -16384 to
    -1 the function makes 65536 + 2 * timeMs cycles of 500 us. *)
Theorem tone_negative_duration timeMs sp :
  -16384 <= timeMs < 0 ->
  exists sp',
    Tone.warningSounds timeMs sp = Some sp' /\
    Tone.elapsed_us sp' = Tone.elapsed_us sp + 500 * (65536 + 2 * timeMs).
Proof.
  intros Hms.
  rewrite warningSounds_cycles by (unfold Tone.in_int16; lia).
  replace ((timeMs * 2) mod 65536) with (65536 + 2 * timeMs).
  - destruct (tone_cycles_effect (65536 + 2 * timeMs) sp ltac:(lia)) as (Ht & _).
    eexists. split; [ reflexivity | exact Ht ].
  - apply Z.mod_unique with (q := -1); lia.
Qed.

(** ** Start-up before the first tick *)

Lemma setup_step cfg n :
  (n < 20)%nat ->
  exists e,
    drop_updates n (main_setup cfg)
    = Upd (log e) (drop_updates (S n) (main_setup cfg)) /\
    firstn (S n) setup_log = firstn n setup_log ++ [e].
Proof.
  intros Hn.
  do 20 (destruct n as [ | n ]; [ eexists; split; reflexivity | ]).
  lia.
Qed.

Lemma setup_enable cfg :
  drop_updates 20 (main_setup cfg)
  = Upd enable_interrupts (drop_updates 21 (main_setup cfg)).
Proof. reflexivity. Qed.

Ltac started_update :=
  match goal with
  | H : started _ |- started _ =>
      let Hint := fresh "Hint" in
      let rest := fresh "rest" in
      let Hout := fresh "Hout" in
      destruct H as (Hint & rest & Hout); split;
      [ try unfold dht_answer; cbn; exact Hint
      | try unfold dht_answer; cbn;
        first
          [ exists rest; exact Hout
          | eexists; rewrite Hout, <- app_assoc; reflexivity ] ]
  end.

Lemma rest_of_setup_keeps_started cfg :
  keeps started (drop_updates 21 (main_setup cfg)).
Proof.
  cbn [drop_updates main_setup bind emit assign skip for_each].
  unfold emit, assign. keeps_walk ltac:(idtac; started_update).
Qed.

Lemma main_loop_body_keeps_started cfg r :
  keeps started (main_loop_body cfg r).
Proof.
  unfold main_loop_body, dht_gettemperaturehumidity, checkStats, isNewResultValid,
    check_limits, adjust_extremes, ifg, emit, assign, assign_expr.
  keeps_walk ltac:(idtac; try unfold dht_answer;
                   try destruct (dht_stored r) as [[? ?] | ];
                   started_update).
Qed.

Lemma tick_keeps_started cfg s s' :
  started s -> run (TIMER1_OVF_vect cfg) s = Returns tt s' -> started s'.
Proof.
  intros (Hint & rest & Hout) Hrun.
  destruct (TIMER1_OVF_vect_run cfg s) as (s1 & Hrun1 & Hout1 & _ & _ & _ & Hint1).
  rewrite Hrun in Hrun1. injection Hrun1 as <-.
  split; [ congruence | ].
  eexists. rewrite Hout1, Hout, <- app_assoc. reflexivity.
Qed.

Lemma exec_during_setup cfg sched :
  forall n s,
    (n <= 20)%nat ->
    interrupts s = false ->
    out s = firstn n setup_log ->
    exists s' k',
      exec cfg sched (s, drop_updates n (main_setup cfg)) = Some (s', k') /\
      ((interrupts s' = false /\ exists n', out s' = firstn n' setup_log) \/
       started s').
Proof.
  induction sched as [ | a sched IH ]; intros n s Hn Hint Hout.
  - exists s, (drop_updates n (main_setup cfg)).
    split; [ reflexivity | ]. left. eauto.
  - cbn [exec].
    destruct (Nat.eq_dec n 20) as [-> | Hne].
    + (* the next foreground action is [sei()] *)
      rewrite setup_enable.
      destruct a as [ | r | ].
      * cbn [step].
        destruct (exec_keeps started cfg (tick_keeps_started cfg)
                    (main_loop_body_keeps_started cfg) sched
                    (enable_interrupts s) (drop_updates 21 (main_setup cfg)))
          as (s' & k' & Hexec & Hs' & _).
        { split; [ reflexivity | ]. exists []. cbn [out enable_interrupts].
          rewrite Hout, app_nil_r. reflexivity. }
        { apply rest_of_setup_keeps_started. }
        exists s', k'. split; [ exact Hexec | right; exact Hs' ].
      * cbn [step]. rewrite <- setup_enable. apply (IH 20%nat); auto.
      * unfold step. rewrite Hint. rewrite <- setup_enable. apply (IH 20%nat); auto.
    + destruct (setup_step cfg n ltac:(lia)) as (e & Hk & Hfirst).
      destruct a as [ | r | ].
      * rewrite Hk. cbn [step].
        apply (IH (S n)); [ lia | exact Hint | ].
        cbn [out log]. rewrite Hout, Hfirst. reflexivity.
      * rewrite Hk. cbn [step]. rewrite <- Hk. apply (IH n); auto.
      * unfold step. rewrite Hint. apply (IH n); auto.
Qed.

(** X18.  The handler never gets ahead of the start-up: on every schedule
    the log is a prefix of the twenty driver and register writes [main]
    makes before [sei()] while interrupts are off, and begins with all
    twenty of them, in order, once interrupts are on.  So the display and
    the matrix are initialised and cleared before the first tick writes to
    them. *)
Theorem startup_precedes_ticks cfg sched :
  exists s k,
    exec cfg sched (boot cfg) = Some (s, k) /\
    ((interrupts s = false /\ exists n, out s = firstn n setup_log) \/
     (interrupts s = true /\ exists rest, out s = setup_log ++ rest)).
Proof.
  apply (exec_during_setup cfg sched 0%nat init_state); [ lia | reflexivity | reflexivity ].
Qed.

(** ** A steady drift *)

Lemma validates_near s :
  1 <= s#test_frequency ->
  Z.abs (s#temperature - s#temperature_previous) <= 5 ->
  Z.abs (s#humidity - s#humidity_previous) <= 5 ->
  validates s = true.
Proof.
  intros Htf Ht Hh. unfold validates.
  destruct (isNewResultValid_delta s Htf) as (v & s' & -> & _ & Hiff & _).
  rewrite (proj2 Hiff (conj Ht Hh)). reflexivity.
Qed.

Lemma near_pass_accepted cfg b s :
  s#test_frequency = 1 ->
  sample_in_int8 b ->
  Z.abs (fst b - s#temperature_previous) <= 5 ->
  Z.abs (snd b - s#humidity_previous) <= 5 ->
  exists s',
    run (main_loop_body cfg (dht_sample b)) s = Returns tt s' /\
    s'#test_frequency = 1 /\
    s'#temperature_previous = fst b /\ s'#humidity_previous = snd b /\
    s'#temperature_max = Z.max s#temperature_max (fst b) /\
    s'#temperature_min = Z.min s#temperature_min (fst b) /\
    s'#humidity_max = Z.max s#humidity_max (snd b) /\
    s'#humidity_min = Z.min s#humidity_min (snd b).
Proof.
  intros Htf [Hbt Hbh] Hnt Hnh.
  set (s0 := dht_answer (dht_sample b) s).
  assert (Hkeep : forall x, x <> temperature -> x <> humidity -> s0#x = s#x)
    by frame_vars.
  assert (Et : s0#temperature = fst b) by (cbn; apply wrap8_id; assumption).
  assert (Eh : s0#humidity = snd b) by (cbn; apply wrap8_id; assumption).
  assert (Hv : validates s0 = true).
  { apply validates_near; rewrite ?Et, ?Eh; keep_others Hkeep; try assumption. lia. }
  assert (Htf0 : s0#test_frequency = 0 \/ s0#test_frequency = 1)
    by (right; keep_others Hkeep; exact Htf).
  destruct (isNewResultValid_accepts s0 Hv Htf0)
    as (s1 & Hrun1 & Htp & Hhp & Htf1 & Hmem1 & _).
  unfold main_loop_body. rewrite run_bind. cbn [dht_gettemperaturehumidity run dht_sample dht_ok dht_status].
  cbn [Z.eqb negb run].
  fold (dht_sample b). fold s0.
  unfold checkStats. rewrite run_bind, Hrun1. cbn [Z.eqb Pos.eqb].
  rewrite run_bind.
  destruct (check_limits_run cfg s0#temperature s0#humidity s1)
    as (s2 & -> & _ & _ & _ & Hmem2 & _).
  destruct (adjust_extremes_run s0#temperature s0#humidity s2)
    as (s3 & -> & Htmax & Htmin & Hhmax & Hhmin & Hmem3 & _).
  exists s3. split; [ reflexivity | ].
  rewrite Et, Eh in *.
  rewrite (wrap8_id _ Hbt) in Htp, Htmax, Htmin.
  rewrite (wrap8_id _ Hbh) in Hhp, Hhmax, Hhmin.
  rewrite Htmax, Htmin, Hhmax, Hhmin.
  rewrite !(Hmem3 test_frequency), !(Hmem3 temperature_previous),
    !(Hmem3 humidity_previous) by discriminate.
  rewrite !(Hmem2 test_frequency), !(Hmem2 temperature_previous),
    !(Hmem2 humidity_previous), !(Hmem2 temperature_max), !(Hmem2 temperature_min),
    !(Hmem2 humidity_max), !(Hmem2 humidity_min) by discriminate.
  rewrite !(Hmem1 temperature_max), !(Hmem1 temperature_min),
    !(Hmem1 humidity_max), !(Hmem1 humidity_min) by discriminate.
  keep_others Hkeep.
  repeat split; try assumption.
  - destruct (Z.ltb_spec s#temperature_max (fst b)); lia.
  - destruct (Z.gtb_spec s#temperature_min (fst b)); lia.
  - destruct (Z.ltb_spec s#humidity_max (snd b)); lia.
  - destruct (Z.gtb_spec s#humidity_min (snd b)); lia.
Qed.

Lemma last_after_head {A : Type} (bs : list A) :
  forall b d, last (b :: bs) d = last bs b.
Proof.
  induction bs as [ | x bs IH ]; intros b d.
  - reflexivity.
  - change (last (b :: x :: bs) d) with (last (x :: bs) d).
    rewrite !IH. reflexivity.
Qed.

(** X19.  A drift in steps of at most 5 is accepted sample by sample,
    however far it goes: the baseline ends at the last sample, and each
    extreme is the largest, or smallest, of its old value and all the
    samples. *)
Theorem steady_drift_all_accepted cfg bs :
  forall s,
    s#test_frequency = 1 ->
    Forall sample_in_int8 bs ->
    chain (s#temperature_previous, s#humidity_previous) bs ->
    exists s',
      passes cfg (map dht_sample bs) s = Some s' /\
      (s'#temperature_previous, s'#humidity_previous)
      = last bs (s#temperature_previous, s#humidity_previous) /\
      s'#temperature_max = fold_left Z.max (map fst bs) s#temperature_max /\
      s'#temperature_min = fold_left Z.min (map fst bs) s#temperature_min /\
      s'#humidity_max = fold_left Z.max (map snd bs) s#humidity_max /\
      s'#humidity_min = fold_left Z.min (map snd bs) s#humidity_min.
Proof.
  induction bs as [ | b bs IH ]; intros s Htf Hbs Hchain.
  - exists s. repeat split.
  - inversion Hbs as [ | ? ? Hb Hbs' ]; subst.
    destruct Hchain as (Hnt & Hnh & Hchain). cbn [fst snd] in Hnt, Hnh.
    destruct (near_pass_accepted cfg b s Htf Hb Hnt Hnh)
      as (s1 & Hrun & Htf1 & Htp & Hhp & Htmax & Htmin & Hhmax & Hhmin).
    destruct (IH s1 Htf1 Hbs') as (s' & Hpasses & Hlast & Hmax & Hmin & Hhmx & Hhmn).
    { rewrite Htp, Hhp. destruct b; exact Hchain. }
    exists s'. cbn [map passes fold_left]. rewrite Hrun.
    split; [ exact Hpasses | ].
    rewrite Hmax, Hmin, Hhmx, Hhmn, Htmax, Htmin, Hhmax, Hhmin.
    repeat split.
    rewrite Hlast, Htp, Hhp, last_after_head.
    destruct b as [t h]. reflexivity.
Qed.

(** ** Well-ordered limits *)

Lemma main_loop_body_no_spin cfg r : no_spin (main_loop_body cfg r).
Proof.
  unfold main_loop_body, dht_gettemperaturehumidity, checkStats, isNewResultValid,
    check_limits, adjust_extremes, ifg, emit, assign, assign_expr.
  cbn.
  repeat first
    [ apply no_spin_ret | apply no_spin_upd | apply no_spin_rd; intros ? | split_cond ].
Qed.

Lemma main_setup_no_spin cfg : ~ config_error cfg -> no_spin (main_setup cfg).
Proof.
  intros Hcfg. unfold main_setup.
  replace ((temp_limit_min cfg >? temp_limit_max cfg)
           || (hum_limit_min cfg >? hum_limit_max cfg)) with false.
  - unfold emit, assign. cbn. repeat constructor.
  - symmetry. apply orb_false_iff. unfold config_error in Hcfg.
    split; rewrite Z.gtb_ltb; apply Z.ltb_ge; lia.
Qed.

Lemma exec_no_spin cfg sched :
  forall s k,
    no_spin k ->
    exists s' k', exec cfg sched (s, k) = Some (s', k') /\ no_spin k'.
Proof.
  induction sched as [ | a sched IH ]; intros s k Hk.
  - exists s, k. split; [ reflexivity | exact Hk ].
  - cbn [exec]. destruct a as [ | r | ].
    + destruct Hk as [ u | k Hk | f k Hk ]; cbn [step];
        apply IH; auto using no_spin.
    + destruct Hk as [ u | k Hk | f k Hk ]; cbn [step];
        apply IH; auto using no_spin, main_loop_body_no_spin.
    + unfold step. destruct (interrupts s); [ | apply IH; exact Hk ].
      destruct (TIMER1_OVF_vect_run cfg s) as (s1 & -> & _).
      apply IH. exact Hk.
Qed.

Lemma ordered_limits_no_error cfg : ordered_limits cfg -> ~ config_error cfg.
Proof.
  unfold ordered_limits, in_order, config_error, NULL.
  intros [Ht Hh] Herr. lia.
Qed.

(** X20.  With the limits of the temperature and those of the humidity in
    order (both configured and the minimum not above the maximum, or no
    minimum and a maximum that is not negative) [main] never halts: on
    every schedule the machine runs on and the foreground is never in the
    endless empty loop of the configuration error. *)
Theorem ordered_limits_never_halt cfg sched :
  ordered_limits cfg ->
  exists s k, exec cfg sched (boot cfg) = Some (s, k) /\ k <> Spin.
Proof.
  intros Hord.
  pose proof (ordered_limits_no_error cfg Hord) as Hcfg.
  destruct (exec_no_spin cfg sched init_state (main_setup cfg)
              (main_setup_no_spin cfg Hcfg))
    as (s & k & Hexec & Hk).
  exists s, k. split; [ exact Hexec | ].
  intros ->. inversion Hk.
Qed.

(** ** The further theorems at concrete inputs *)

Lemma display_step_cycles_witness :
  0 <= (set display_step 4 init_state)#display_step <= 4 /\
  exists s',
    run (TIMER1_OVF_vect user_configuration) (set display_step 4 init_state)
      = Returns tt s' /\
    s'#display_step = 0.
Proof.
  assert (H : 0 <= (set display_step 4 init_state)#display_step <= 4)
    by (vm_compute; split; discriminate).
  split; [ exact H | ].
  exact (proj2 (display_step_cycles user_configuration)
           (set display_step 4 init_state) H).
Defined.

Lemma tone_iff_alarm_witness :
  In (speaker_tone 2000)
     (tick_pane user_configuration (set temp_exceeded_dir (-1) init_state)).
Proof.
  apply (proj2 (tone_iff_alarm user_configuration
                  (set temp_exceeded_dir (-1) init_state) 2000)).
  split; [ reflexivity | ].
  left. split; [ reflexivity | right; reflexivity ].
Defined.

Lemma extremes_bracket_last_accepted_witness :
  existsb successful [pass dht_error; pass (dht_ok 25 40); tick; pass (dht_ok 29 41)]
  = true /\
  exists s,
    rounds user_configuration
      [pass dht_error; pass (dht_ok 25 40); tick; pass (dht_ok 29 41)] init_state
    = Some s /\
    brackets s.
Proof.
  split; [ reflexivity | ].
  apply extremes_bracket_last_accepted. reflexivity.
Defined.

Lemma directions_follow_last_accepted_witness :
  exists s,
    rounds user_configuration [pass (dht_ok 31 40); pass (dht_ok 40 40)] init_state
    = Some s /\
    directions_current user_configuration s.
Proof.
  destruct (directions_follow_last_accepted user_configuration
              [pass (dht_ok 31 40); pass (dht_ok 40 40)])
    as (s & Hr & Hcur & _).
  exists s. split; [ exact Hr | ]. apply Hcur. reflexivity.
Defined.

Lemma far_samples_all_rejected_witness :
  after_first_sample#test_frequency = 1 /\
  exists s',
    passes user_configuration [dht_ok 36 40; dht_ok 37 40; dht_ok 38 47]
      after_first_sample = Some s' /\
    s'#temperature_previous = 25 /\ s'#temperature_max = 25.
Proof.
  split; [ reflexivity | ].
  assert (Hin : forall t, -128 <= t <= 127 -> in_int8 t) by (intros t H; exact H).
  destruct (far_samples_all_rejected user_configuration
              [dht_ok 36 40; dht_ok 37 40; dht_ok 38 47] after_first_sample eq_refl)
    as (s' & Hpasses & Hmem).
  { repeat constructor; try discriminate;
      (do 2 eexists; split; [ reflexivity | ];
       split; [ apply Hin; lia | ]; split; [ apply Hin; lia | ];
       left; vm_compute; reflexivity). }
  exists s'. split; [ exact Hpasses | ].
  rewrite (Hmem temperature_previous), (Hmem temperature_max) by discriminate.
  split; reflexivity.
Defined.

Lemma rejected_sample_is_displayed_witness :
  validates (dht_answer (dht_ok 36 40) (set display_step 2 after_first_sample)) = false /\
  exists s' s'',
    run (main_loop_body user_configuration (dht_ok 36 40))
        (set display_step 2 after_first_sample) = Returns tt s' /\
    s'#temperature_previous = 25 /\
    run (TIMER1_OVF_vect user_configuration) s' = Returns tt s'' /\
    out s'' = out s' ++ pane (printTempHum_Current 36 40) ++ tick_animation s'.
Proof.
  split; [ reflexivity | ].
  assert (Hin : forall t, -128 <= t <= 127 -> in_int8 t) by (intros t H; exact H).
  destruct (rejected_sample_is_displayed user_configuration (dht_ok 36 40) 36 40
              (set display_step 2 after_first_sample))
    as (s' & s'' & Hrun & Htp & _ & Htick & Hout);
    try reflexivity; try discriminate; try (apply Hin; lia).
  exists s', s''. rewrite Htp. repeat split; assumption.
Defined.

Lemma lower_limit_alone_halts_witness :
  exists s,
    exec {| temp_limit_min := 20; temp_limit_max := NULL;
            hum_limit_min := 20; hum_limit_max := 50 |}
         (repeat fg 25)
         (boot {| temp_limit_min := 20; temp_limit_max := NULL;
                  hum_limit_min := 20; hum_limit_max := 50 |})
    = Some (s, Spin) /\
    ~ In dht_read (out s).
Proof.
  destruct (lower_limit_alone_halts
              {| temp_limit_min := 20; temp_limit_max := NULL;
                 hum_limit_min := 20; hum_limit_max := 50 |}
              (repeat fg 25))
    as (s & k & Hexec & Hread & Hhalt).
  { left. split; [ reflexivity | cbn; lia ]. }
  destruct (Hhalt ltac:(cbn; lia)) as [-> _].
  exists s. split; assumption.
Defined.

Lemma zero_limit_is_no_limit_witness :
  validates (present (-5, 40) init_state) = true /\
  exists s',
    run (checkStats {| temp_limit_min := 0; temp_limit_max := 30;
                       hum_limit_min := 20; hum_limit_max := 50 |} (-5) 40)
        (present (-5, 40) init_state) = Returns tt s' /\
    s'#temp_exceeded_dir <> -1.
Proof.
  split; [ reflexivity | ].
  destruct (zero_limit_is_no_limit
              {| temp_limit_min := 0; temp_limit_max := 30;
                 hum_limit_min := 20; hum_limit_max := 50 |} (-5) 40
              (present (-5, 40) init_state) eq_refl)
    as (s' & Hrun & _ & Hmin & _).
  exists s'. split; [ exact Hrun | ]. apply Hmin. reflexivity.
Defined.

Lemma decimal_text_fits_buffer_witness :
  (String.length (sprintf_d (-32768)) + 1 <= 8)%nat.
Proof. apply decimal_text_fits_buffer. lia. Defined.

Lemma animation_ends_blank_witness :
  Frame.digit_of
    (Frame.matrixDisplay_animate LEDMATRIX_HEART 1
       (Frame.max7219_digit 0 3 255 dark_matrix)) 0 3 = 0.
Proof. apply animation_ends_blank; lia. Defined.

Lemma animation_frames_and_delay_witness :
  Frame.elapsed_ms (Frame.matrixDisplay_animate LEDMATRIX_WARNING 1 dark_matrix) = 1920 /\
  List.length (Frame.shown (Frame.matrixDisplay_animate LEDMATRIX_WARNING 1 dark_matrix))
  = 16%nat.
Proof.
  exact (animation_frames_and_delay LEDMATRIX_WARNING 1 dark_matrix ltac:(lia)).
Defined.

Lemma heart_is_bitmap : Frame.bitmap LEDMATRIX_HEART.
Proof.
  split; [ reflexivity | ].
  repeat constructor; vm_compute; discriminate.
Defined.

Lemma animation_frames_witness :
  Frame.shown (Frame.matrixDisplay_animate LEDMATRIX_HEART 1 dark_matrix)
  = frames_of LEDMATRIX_HEART /\
  nth 7 (frames_of LEDMATRIX_HEART) [] = LEDMATRIX_HEART.
Proof.
  destruct (animation_frames LEDMATRIX_HEART 1 dark_matrix heart_is_bitmap ltac:(lia))
    as (Hshown & Himage & _).
  split; [ | exact Himage ].
  rewrite Hshown. cbn [Z.to_nat Pos.to_nat Pos.iter_op Nat.add repeat List.concat
                         dark_matrix Frame.shown app].
  apply app_nil_r.
Defined.

Lemma tone_duration_and_pin_witness :
  exists sp',
    Tone.warningSounds 2000 silent_speaker = Some sp' /\
    Tone.elapsed_us sp' = 2000000 /\
    Z.testbit (Tone.PORTD sp') Tone.SPEAKER_PIN = false.
Proof.
  destruct (tone_duration_and_pin 2000 silent_speaker ltac:(lia))
    as (sp' & Hrun & Ht & Hpin & _).
  exists sp'. split; [ exact Hrun | ]. split; [ exact Ht | ].
  apply Hpin. lia.
Defined.

Lemma tone_negative_duration_witness :
  exists sp',
    Tone.warningSounds (-1) silent_speaker = Some sp' /\
    Tone.elapsed_us sp' = 32767000.
Proof.
  exact (tone_negative_duration (-1) silent_speaker ltac:(lia)).
Defined.

Lemma steady_drift_all_accepted_witness :
  after_first_sample#test_frequency = 1 /\
  exists s',
    passes user_configuration (map dht_sample [(30, 41); (35, 42); (40, 43)])
      after_first_sample = Some s' /\
    (s'#temperature_previous, s'#humidity_previous) = (40, 43) /\
    s'#temperature_max = 40 /\ s'#temperature_min = 25.
Proof.
  split; [ reflexivity | ].
  assert (Hin : forall t, -128 <= t <= 127 -> in_int8 t) by (intros t H; exact H).
  destruct (steady_drift_all_accepted user_configuration
              [(30, 41); (35, 42); (40, 43)] after_first_sample eq_refl)
    as (s' & Hpasses & Hlast & Hmax & Hmin & _).
  - repeat constructor; apply Hin; cbn; lia.
  - vm_compute. intuition discriminate.
  - exists s'. split; [ exact Hpasses | ].
    rewrite Hlast, Hmax, Hmin. repeat split.
Defined.

Lemma ordered_limits_never_halt_witness :
  ordered_limits user_configuration /\
  exists s k,
    exec user_configuration (repeat fg 30) (boot user_configuration) = Some (s, k) /\
    k <> Spin.
Proof.
  assert (Hord : ordered_limits user_configuration)
    by (split; left; unfold NULL; cbn; lia).
  split; [ exact Hord | ].
  exact (ordered_limits_never_halt user_configuration (repeat fg 30) Hord).
Defined.
